(** * Collaborative whiteboard server: rooms, lobby and session events

    A shallow embedding of the socket handlers of [server.js].  The two
    process-wide tables [rooms] and [connectedUsers] and the fields the
    handlers attach to each socket object ([socket.roomId],
    [socket.username], [socket.role]) form the server state; each handler
    is a function from a state, the sending socket's id, the clock value
    read by [Date.now()] and the event payload to the next state and the
    list of transport effects it issues.

    Conventions:
    - a JavaScript [Map] is a [gmap]; the participant list carried by an
      outbound message ([Array.from(room.participants.values())]) is kept
      as the directory snapshot itself, so no iteration order is asserted;
    - payload fields have the types of the wire protocol: identifiers,
      names and image payloads are strings (a missing one behaves as the
      empty string in every test the handlers make of it), a slide index
      is an integer or [undefined] ([option Z], [None] for [undefined]);
    - emissions are recorded symbolically ([socket.emit], [io.to(r).emit],
      [socket.to(r).emit]); group membership ([socket.join]) is the
      transport's business and is recorded as an effect;
    - a room object is mutated in place through the reference the registry
      holds; here the updated record is written back under the same key;
    - a socket that disconnects loses its entry in [sockets]; the fields of
      a socket that only sent leave-room stay on it, as in the source;
    - the hourly sweep of stale rooms is an input of its own. *)

From Stdlib Require Import ZArith DecimalString DecimalZ DecimalPos.
From stdpp Require Import gmap strings list fin_maps.

(** ** Data model *)

Inductive role := Host | Participant.

(** [ROOM_STATES] *)
Inductive room_state := LOBBY | ACTIVE | ENDED.

#[global] Instance role_eq_dec : EqDecision role.
Proof. solve_decision. Defined.

#[global] Instance room_state_eq_dec : EqDecision room_state.
Proof. solve_decision. Defined.

(** JavaScript truthiness of a string: only the empty string is falsy. *)
Definition truthy (s : string) : bool :=
  match s with
  | EmptyString => false
  | String _ _ => true
  end.

(** Decimal rendering of an integer inside a template literal. *)
Definition number_to_string (z : Z) : string :=
  NilZero.string_of_int (Z.to_int z).

(** [`slide_${index}`]; an [undefined] index renders as "undefined". *)
Definition slideKey (index : option Z) : string :=
  match index with
  | Some z => "slide_" +:+ number_to_string z
  | None => "slide_undefined"
  end.
Global Arguments slideKey : simpl never.

(** [index || 0] on a number or [undefined]. *)
Definition or_zero (index : option Z) : Z :=
  match index with
  | Some z => z
  | None => 0%Z
  end.

Module Participant.
Record t := mk {
  id : string;
  username : string;
  role : role;
  ready : bool;
  joinedAt : Z
}.
Definition with_ready (b : bool) (p : t) : t :=
  mk (id p) (username p) (role p) b (joinedAt p).
End Participant.

Module Settings.
Record t := mk {
  hostCanClear : bool;
  hostCanMute : bool;
  participantsCanDraw : bool;
  participantsCanChat : bool;
  maxParticipants : nat
}.
Definition initial : t := mk true true true true 50.
Definition toggle_participantsCanDraw (s : t) : t :=
  mk (hostCanClear s) (hostCanMute s) (negb (participantsCanDraw s))
     (participantsCanChat s) (maxParticipants s).
Definition toggle_participantsCanChat (s : t) : t :=
  mk (hostCanClear s) (hostCanMute s) (participantsCanDraw s)
     (negb (participantsCanChat s)) (maxParticipants s).
End Settings.

(** Payload of an inbound [drawing] event: the sub-event kind
    ([data.type]), the optional slide index and the stroke itself, which
    the server never inspects. *)
Module Stroke.
Record t := mk {
  type : string;
  slideIndex : option Z;
  payload : string
}.
End Stroke.

(** Payload of [text-added]; when it carries its own [type] that one
    overrides the ['text'] tag of the stored record. *)
Module TextData.
Record t := mk {
  type : option string;
  payload : string
}.
End TextData.

(** A record of [room.drawings] or of one per-slide log: the payload
    spread first, then the sender attribution. *)
Module Drawing.
Record t := mk {
  type : string;
  slideIndex : option Z;
  payload : string;
  userId : string;
  username : string;
  role : role;
  timestamp : Z
}.
End Drawing.

Module Room.
Record t := mk {
  id : string;
  host : string;
  state : room_state;
  participants : gmap string Participant.t;
  drawings : list Drawing.t;
  backgroundImage : option string;
  slides : list string;
  currentSlide : option Z;
  slideDrawings : gmap string (list Drawing.t);
  settings : Settings.t;
  createdAt : Z
}.
Definition with_state (s : room_state) (r : t) : t :=
  mk (id r) (host r) s (participants r) (drawings r) (backgroundImage r)
     (slides r) (currentSlide r) (slideDrawings r) (settings r) (createdAt r).
Definition with_participants (ps : gmap string Participant.t) (r : t) : t :=
  mk (id r) (host r) (state r) ps (drawings r) (backgroundImage r)
     (slides r) (currentSlide r) (slideDrawings r) (settings r) (createdAt r).
Definition with_drawings (ds : list Drawing.t) (r : t) : t :=
  mk (id r) (host r) (state r) (participants r) ds (backgroundImage r)
     (slides r) (currentSlide r) (slideDrawings r) (settings r) (createdAt r).
Definition with_backgroundImage (b : option string) (r : t) : t :=
  mk (id r) (host r) (state r) (participants r) (drawings r) b
     (slides r) (currentSlide r) (slideDrawings r) (settings r) (createdAt r).
Definition with_slides (sl : list string) (r : t) : t :=
  mk (id r) (host r) (state r) (participants r) (drawings r) (backgroundImage r)
     sl (currentSlide r) (slideDrawings r) (settings r) (createdAt r).
Definition with_currentSlide (c : option Z) (r : t) : t :=
  mk (id r) (host r) (state r) (participants r) (drawings r) (backgroundImage r)
     (slides r) c (slideDrawings r) (settings r) (createdAt r).
Definition with_slideDrawings (sd : gmap string (list Drawing.t)) (r : t) : t :=
  mk (id r) (host r) (state r) (participants r) (drawings r) (backgroundImage r)
     (slides r) (currentSlide r) sd (settings r) (createdAt r).
Definition with_settings (s : Settings.t) (r : t) : t :=
  mk (id r) (host r) (state r) (participants r) (drawings r) (backgroundImage r)
     (slides r) (currentSlide r) (slideDrawings r) s (createdAt r).
End Room.

(** An entry of [connectedUsers]. *)
Module UserInfo.
Record t := mk {
  roomId : string;
  username : string;
  role : role
}.
End UserInfo.

(** The fields the handlers store on the socket object.  A socket without
    an entry in [sockets] has never been bound: its [roomId] is
    [undefined]. *)
Module Socket.
Record t := mk {
  roomId : string;
  username : string;
  role : role
}.
End Socket.

Record server := Server {
  rooms : gmap string Room.t;
  connectedUsers : gmap string UserInfo.t;
  sockets : gmap string Socket.t
}.

Definition initial : server := Server ∅ ∅ ∅.

Definition set_room (roomId : string) (room : Room.t) (st : server) : server :=
  Server (<[roomId := room]> (rooms st)) (connectedUsers st) (sockets st).

(** ** Events and effects *)

(** Inbound events, one constructor per [socket.on]. *)
Module In.
Inductive event :=
| create_room (roomId username : string)
| join_room (roomId username : string)
| toggle_ready (ready : bool)
| start_session
| drawing (data : Stroke.t)
| chat_message (message : string)
| file_upload_started (data : string)
| background_image_set (imageData filename username : string)
| background_cleared (username : string)
| file_shared (type data : string)
| presentation_shared (slides : list string) (currentSlide : option Z)
                      (filename username : string)
| slide_changed (slideIndex : option Z)
| slide_drawings_cleared (slideIndex : option Z)
| text_added (data : TextData.t)
| clear_canvas
| toggle_participant_drawing
| toggle_participant_chat
| kick_participant (targetUserId : string)
| leave_room
| disconnect.
End In.

(** The artifacts a joiner receives when the room is already active. *)
Record room_snapshot := Snapshot {
  snap_slides : list string;
  snap_currentSlide : option Z;
  snap_backgroundImage : option string;
  snap_settings : Settings.t
}.

(** Outbound messages. *)
Module Out.
Inductive message :=
| error (message : string)
| room_exists
| room_created (roomId : string) (participants : gmap string Participant.t)
| room_not_found
| room_full
| room_joined (roomId : string) (roomState : room_state)
              (participants : gmap string Participant.t)
              (active : option room_snapshot)
| lobby_updated (participants : gmap string Participant.t)
| session_starting
| session_started
| drawing (drawingData : Drawing.t)
| chat_message (username : string) (role : role) (message : string) (timestamp : Z)
| file_upload_started (data : string) (userId : string)
| background_image_set (imageData filename username : string)
| background_cleared (username : string)
| file_shared (type data : string) (sharedBy : string)
| presentation_shared (slides : list string) (filename : string)
                      (currentSlide : option Z) (username : string)
| slide_changed (slideIndex : option Z)
| slide_drawings_cleared (slideIndex : option Z)
| text_added (data : TextData.t) (userId username : string) (role : role)
             (timestamp : Z)
| clear_canvas (clearedBy : string) (role : role)
| permissions_updated (settings : Settings.t) (updatedBy : string)
| kicked (by_ reason : string)
| room_ended (reason : string)
| user_left (username : string) (role : role)
| participant_left_session (username : string) (role : role)
                           (participants : gmap string Participant.t).
End Out.

Inductive effect :=
| to_socket (sid : string) (m : Out.message)
    (* socket.emit, targetSocket.emit: to that one socket *)
| to_room (roomId : string) (m : Out.message)
    (* io.to(roomId).emit: every member of the group, sender included *)
| to_others (roomId : string) (sender : string) (m : Out.message)
    (* socket.to(roomId).emit: every member of the group but the sender *)
| to_room_later (delay : Z) (sender : string) (roomId : string) (m : Out.message)
    (* setTimeout: the emission is issued when the timer fires, with the
       payload read from the room object at that moment *)
| join_group (sid : string) (roomId : string)
    (* socket.join *)
| drop_connection (sid : string).
    (* targetSocket.disconnect() *)

(** ** Handlers *)

(** [socket.on('create-room')].  Nothing in the guarded block throws, so
    the [catch] branch is never taken. *)
Definition on_create_room (st : server) (sid : string) (now : Z)
    (roomId username : string) : server * list effect :=
  if negb (truthy roomId) || negb (truthy username) then
    (st, [to_socket sid (Out.error "Invalid room data")])
  else
    match rooms st !! roomId with
    | Some _ => (st, [to_socket sid Out.room_exists])
    | None =>
      let newRoom :=
        Room.mk roomId sid LOBBY
          {[ sid := Participant.mk sid username Host true now ]}
          [] None [] (Some 0%Z) ∅ Settings.initial now in
      (Server (<[roomId := newRoom]> (rooms st))
              (<[sid := UserInfo.mk roomId username Host]> (connectedUsers st))
              (<[sid := Socket.mk roomId username Host]> (sockets st)),
       [join_group sid roomId;
        to_socket sid (Out.room_created roomId (Room.participants newRoom))])
    end.

(** [socket.on('join-room')]. *)
Definition on_join_room (st : server) (sid : string) (now : Z)
    (roomId username : string) : server * list effect :=
  match rooms st !! roomId with
  | None => (st, [to_socket sid Out.room_not_found])
  | Some room =>
    if Settings.maxParticipants (Room.settings room) <=? size (Room.participants room)
    then (st, [to_socket sid Out.room_full])
    else
      let participants' :=
        <[sid := Participant.mk sid username Participant false now]>
          (Room.participants room) in
      let room' := Room.with_participants participants' room in
      let active :=
        if decide (Room.state room' = ACTIVE) then
          Some (Snapshot (Room.slides room') (Room.currentSlide room')
                         (Room.backgroundImage room') (Room.settings room'))
        else None in
      (Server (<[roomId := room']> (rooms st))
              (<[sid := UserInfo.mk roomId username Participant]> (connectedUsers st))
              (<[sid := Socket.mk roomId username Participant]> (sockets st)),
       [join_group sid roomId;
        to_socket sid (Out.room_joined roomId (Room.state room') participants' active);
        to_room roomId (Out.lobby_updated participants')])
  end.

(** [socket.on('toggle-ready')]. *)
Definition on_toggle_ready (st : server) (sid : string) (ready : bool)
    : server * list effect :=
  match sockets st !! sid with
  | None => (st, [])
  | Some socket =>
    if negb (truthy (Socket.roomId socket))
       || negb (bool_decide (Socket.role socket = Participant))
    then (st, [])
    else
      match rooms st !! Socket.roomId socket with
      | None => (st, [])
      | Some room =>
        match Room.participants room !! sid with
        | None => (st, [])
        | Some participant =>
          let participants' :=
            <[sid := Participant.with_ready ready participant]>
              (Room.participants room) in
          (set_room (Socket.roomId socket)
                    (Room.with_participants participants' room) st,
           [to_room (Socket.roomId socket) (Out.lobby_updated participants')])
        end
      end
  end.

(** [socket.on('start-session')]. *)
Definition on_start_session (st : server) (sid : string) : server * list effect :=
  match sockets st !! sid with
  | None => (st, [])
  | Some socket =>
    if negb (truthy (Socket.roomId socket))
       || negb (bool_decide (Socket.role socket = Host))
    then (st, [])
    else
      match rooms st !! Socket.roomId socket with
      | None => (st, [])
      | Some room =>
        if decide (Room.state room = LOBBY) then
          (set_room (Socket.roomId socket) (Room.with_state ACTIVE room) st,
           [to_room (Socket.roomId socket) Out.session_starting;
            to_room_later 1000 sid (Socket.roomId socket) Out.session_started])
        else (st, [])
      end
  end.

(** [socket.on('drawing')]. *)
Definition on_drawing (st : server) (sid : string) (now : Z) (data : Stroke.t)
    : server * list effect :=
  match sockets st !! sid with
  | None => (st, [])
  | Some socket =>
    if negb (truthy (Socket.roomId socket)) then (st, [])
    else
      match rooms st !! Socket.roomId socket with
      | None => (st, [])
      | Some room =>
        if decide (Room.state room = ACTIVE) then
          match Room.participants room !! sid with
          | None => (st, [])
          | Some participant =>
            let canDraw :=
              bool_decide (Participant.role participant = Host)
              || Settings.participantsCanDraw (Room.settings room) in
            if negb canDraw then (st, [])
            else
              let drawingData :=
                Drawing.mk (Stroke.type data) (Stroke.slideIndex data)
                           (Stroke.payload data) sid (Socket.username socket)
                           (Socket.role socket) now in
              let slideDrawings' :=
                match Stroke.slideIndex data with
                | Some index =>
                  let key := slideKey (Some index) in
                  let present :=
                    match Room.slideDrawings room !! key with
                    | Some _ => Room.slideDrawings room
                    | None => <[key := []]> (Room.slideDrawings room)
                    end in
                  if decide (Stroke.type data = "draw") then
                    <[key := default [] (present !! key) ++ [drawingData]]> present
                  else present
                | None => Room.slideDrawings room
                end in
              let drawings' :=
                if decide (Stroke.type data = "draw")
                then Room.drawings room ++ [drawingData]
                else Room.drawings room in
              (set_room (Socket.roomId socket)
                 (Room.with_drawings drawings'
                    (Room.with_slideDrawings slideDrawings' room)) st,
               [to_others (Socket.roomId socket) sid (Out.drawing drawingData)])
          end
        else (st, [])
      end
  end.

(** [socket.on('chat-message')]. *)
Definition on_chat_message (st : server) (sid : string) (now : Z)
    (message : string) : server * list effect :=
  match sockets st !! sid with
  | None => (st, [])
  | Some socket =>
    if negb (truthy (Socket.roomId socket)) then (st, [])
    else
      match rooms st !! Socket.roomId socket with
      | None => (st, [])
      | Some room =>
        match Room.participants room !! sid with
        | None => (st, [])
        | Some participant =>
          let canChat :=
            bool_decide (Participant.role participant = Host)
            || Settings.participantsCanChat (Room.settings room) in
          if negb canChat then (st, [])
          else
            (st, [to_room (Socket.roomId socket)
                    (Out.chat_message (Socket.username socket)
                                      (Socket.role socket) message now)])
        end
      end
  end.

(** [socket.on('file-upload-started')]. *)
Definition on_file_upload_started (st : server) (sid : string) (data : string)
    : server * list effect :=
  match sockets st !! sid with
  | None => (st, [])
  | Some socket =>
    if negb (truthy (Socket.roomId socket)) then (st, [])
    else (st, [to_others (Socket.roomId socket) sid
                 (Out.file_upload_started data sid)])
  end.

(** [socket.on('background-image-set')]. *)
Definition on_background_image_set (st : server) (sid : string)
    (imageData filename username : string) : server * list effect :=
  match sockets st !! sid with
  | None => (st, [])
  | Some socket =>
    if negb (truthy (Socket.roomId socket)) then (st, [])
    else
      match rooms st !! Socket.roomId socket with
      | None => (st, [])
      | Some room =>
        (set_room (Socket.roomId socket)
           (Room.with_currentSlide (Some 0%Z)
              (Room.with_slides [imageData]
                 (Room.with_backgroundImage (Some imageData) room))) st,
         [to_others (Socket.roomId socket) sid
            (Out.background_image_set imageData filename username)])
      end
  end.

(** [socket.on('background-cleared')]. *)
Definition on_background_cleared (st : server) (sid : string)
    (username : string) : server * list effect :=
  match sockets st !! sid with
  | None => (st, [])
  | Some socket =>
    if negb (truthy (Socket.roomId socket)) then (st, [])
    else
      match rooms st !! Socket.roomId socket with
      | None => (st, [])
      | Some room =>
        (set_room (Socket.roomId socket)
           (Room.with_slideDrawings ∅
              (Room.with_currentSlide (Some 0%Z)
                 (Room.with_slides []
                    (Room.with_backgroundImage None room)))) st,
         [to_others (Socket.roomId socket) sid (Out.background_cleared username)])
      end
  end.

(** [socket.on('file-shared')]. *)
Definition on_file_shared (st : server) (sid : string) (type data : string)
    : server * list effect :=
  match sockets st !! sid with
  | None => (st, [])
  | Some socket =>
    if negb (truthy (Socket.roomId socket)) then (st, [])
    else
      match rooms st !! Socket.roomId socket with
      | None => (st, [])
      | Some room =>
        let room' :=
          if decide (type = "image") then
            Room.with_currentSlide (Some 0%Z)
              (Room.with_slides [data]
                 (Room.with_backgroundImage (Some data) room))
          else room in
        (set_room (Socket.roomId socket) room' st,
         [to_others (Socket.roomId socket) sid
            (Out.file_shared type data (Socket.username socket))])
      end
  end.

(** [socket.on('presentation-shared')]. *)
Definition on_presentation_shared (st : server) (sid : string)
    (slides : list string) (currentSlide : option Z)
    (filename username : string) : server * list effect :=
  match sockets st !! sid with
  | None => (st, [])
  | Some socket =>
    if negb (truthy (Socket.roomId socket)) then (st, [])
    else
      match rooms st !! Socket.roomId socket with
      | None => (st, [])
      | Some room =>
        let room' :=
          Room.with_slideDrawings ∅
            (Room.with_currentSlide (Some (or_zero currentSlide))
               (Room.with_slides slides room)) in
        (set_room (Socket.roomId socket) room' st,
         [to_others (Socket.roomId socket) sid
            (Out.presentation_shared slides filename
               (Room.currentSlide room') username)])
      end
  end.

(** [socket.on('slide-changed')]. *)
Definition on_slide_changed (st : server) (sid : string)
    (slideIndex : option Z) : server * list effect :=
  match sockets st !! sid with
  | None => (st, [])
  | Some socket =>
    if negb (truthy (Socket.roomId socket)) then (st, [])
    else
      match rooms st !! Socket.roomId socket with
      | None => (st, [])
      | Some room =>
        (set_room (Socket.roomId socket)
           (Room.with_currentSlide slideIndex room) st,
         [to_others (Socket.roomId socket) sid (Out.slide_changed slideIndex)])
      end
  end.

(** [socket.on('slide-drawings-cleared')]. *)
Definition on_slide_drawings_cleared (st : server) (sid : string)
    (slideIndex : option Z) : server * list effect :=
  match sockets st !! sid with
  | None => (st, [])
  | Some socket =>
    if negb (truthy (Socket.roomId socket)) then (st, [])
    else
      match rooms st !! Socket.roomId socket with
      | None => (st, [])
      | Some room =>
        (set_room (Socket.roomId socket)
           (Room.with_slideDrawings
              (delete (slideKey slideIndex) (Room.slideDrawings room)) room) st,
         [to_others (Socket.roomId socket) sid
            (Out.slide_drawings_cleared slideIndex)])
      end
  end.

(** [socket.on('text-added')]. *)
Definition on_text_added (st : server) (sid : string) (now : Z)
    (data : TextData.t) : server * list effect :=
  match sockets st !! sid with
  | None => (st, [])
  | Some socket =>
    if negb (truthy (Socket.roomId socket)) then (st, [])
    else
      match rooms st !! Socket.roomId socket with
      | None => (st, [])
      | Some room =>
        match Room.participants room !! sid with
        | None => (st, [])
        | Some participant =>
          let canDraw :=
            bool_decide (Participant.role participant = Host)
            || Settings.participantsCanDraw (Room.settings room) in
          if negb canDraw then (st, [])
          else
            let stored :=
              Drawing.mk (default "text" (TextData.type data)) None
                         (TextData.payload data) sid (Socket.username socket)
                         (Socket.role socket) now in
            (set_room (Socket.roomId socket)
               (Room.with_drawings (Room.drawings room ++ [stored]) room) st,
             [to_others (Socket.roomId socket) sid
                (Out.text_added data sid (Socket.username socket)
                                (Socket.role socket) now)])
        end
      end
  end.

(** [socket.on('clear-canvas')]. *)
Definition on_clear_canvas (st : server) (sid : string) : server * list effect :=
  match sockets st !! sid with
  | None => (st, [])
  | Some socket =>
    if negb (truthy (Socket.roomId socket)) then (st, [])
    else
      match rooms st !! Socket.roomId socket with
      | None => (st, [])
      | Some room =>
        if bool_decide (Socket.role socket = Host)
           || negb (Settings.hostCanClear (Room.settings room))
        then
          let key := slideKey (Room.currentSlide room) in
          (set_room (Socket.roomId socket)
             (Room.with_slideDrawings (delete key (Room.slideDrawings room))
                (Room.with_drawings [] room)) st,
           [to_room (Socket.roomId socket)
              (Out.clear_canvas (Socket.username socket) (Socket.role socket))])
        else (st, [])
      end
  end.

(** [socket.on('toggle-participant-drawing')]. *)
Definition on_toggle_participant_drawing (st : server) (sid : string)
    : server * list effect :=
  match sockets st !! sid with
  | None => (st, [])
  | Some socket =>
    if negb (truthy (Socket.roomId socket))
       || negb (bool_decide (Socket.role socket = Host))
    then (st, [])
    else
      match rooms st !! Socket.roomId socket with
      | None => (st, [])
      | Some room =>
        let settings' := Settings.toggle_participantsCanDraw (Room.settings room) in
        (set_room (Socket.roomId socket) (Room.with_settings settings' room) st,
         [to_room (Socket.roomId socket)
            (Out.permissions_updated settings' (Socket.username socket))])
      end
  end.

(** [socket.on('toggle-participant-chat')]. *)
Definition on_toggle_participant_chat (st : server) (sid : string)
    : server * list effect :=
  match sockets st !! sid with
  | None => (st, [])
  | Some socket =>
    if negb (truthy (Socket.roomId socket))
       || negb (bool_decide (Socket.role socket = Host))
    then (st, [])
    else
      match rooms st !! Socket.roomId socket with
      | None => (st, [])
      | Some room =>
        let settings' := Settings.toggle_participantsCanChat (Room.settings room) in
        (set_room (Socket.roomId socket) (Room.with_settings settings' room) st,
         [to_room (Socket.roomId socket)
            (Out.permissions_updated settings' (Socket.username socket))])
      end
  end.

(** [socket.role] as [leaveRoom] reads it off the socket object. *)
Definition socket_role (st : server) (sid : string) : option role :=
  Socket.role <$> sockets st !! sid.

(** The registry after [leaveRoom] has dealt with the room the leaver was
    bound to, together with the notices sent. *)
Definition leave_bound_room (st : server) (sid : string) (userInfo : UserInfo.t)
    (room : Room.t) : gmap string Room.t * list effect :=
  let roomId := UserInfo.roomId userInfo in
  let participants' := delete sid (Room.participants room) in
  let ended :=
    if decide (socket_role st sid = Some Host) then
      (delete roomId (rooms st),
       [to_room roomId (Out.room_ended "Host left the room")])
    else
      (<[roomId := Room.with_participants participants' room]> (rooms st),
       [to_others roomId sid (Out.lobby_updated participants');
        if decide (Room.state room = ACTIVE) then
          to_others roomId sid
            (Out.participant_left_session (UserInfo.username userInfo)
               (UserInfo.role userInfo) participants')
        else
          to_others roomId sid
            (Out.user_left (UserInfo.username userInfo) (UserInfo.role userInfo))])
  in
  (if decide (size participants' = 0) then delete roomId ended.1 else ended.1,
   ended.2).

(** [function leaveRoom(socket)]. *)
Definition leaveRoom (st : server) (sid : string) : server * list effect :=
  match connectedUsers st !! sid with
  | None => (st, [])
  | Some userInfo =>
    let left :=
      match rooms st !! UserInfo.roomId userInfo with
      | None => (rooms st, [])
      | Some room => leave_bound_room st sid userInfo room
      end in
    (Server left.1 (delete sid (connectedUsers st)) (sockets st), left.2)
  end.

(** [socket.on('disconnect')]: the socket object is gone afterwards. *)
Definition on_disconnect (st : server) (sid : string) : server * list effect :=
  let left := leaveRoom st sid in
  (Server (rooms left.1) (connectedUsers left.1) (delete sid (sockets left.1)),
   left.2).

(** [socket.on('kick-participant')].  [targetSocket.disconnect()] runs the
    target's [disconnect] handler before it returns. *)
Definition on_kick_participant (st : server) (sid : string)
    (targetUserId : string) : server * list effect :=
  match sockets st !! sid with
  | None => (st, [])
  | Some socket =>
    if negb (truthy (Socket.roomId socket))
       || negb (bool_decide (Socket.role socket = Host))
    then (st, [])
    else
      match sockets st !! targetUserId with
      | None => (st, [])
      | Some targetSocket =>
        if decide (Socket.roomId targetSocket = Socket.roomId socket) then
          let gone := on_disconnect st targetUserId in
          (gone.1,
           to_socket targetUserId
             (Out.kicked (Socket.username socket) "Removed by host")
           :: drop_connection targetUserId :: gone.2)
        else (st, [])
      end
  end.

(** 24 hours, in milliseconds. *)
Definition ROOM_TIMEOUT : Z := 24 * 60 * 60 * 1000.

(** The hourly sweep: empty rooms older than [ROOM_TIMEOUT] are deleted. *)
Definition stale (now : Z) (room : Room.t) : Prop :=
  (ROOM_TIMEOUT < now - Room.createdAt room)%Z
  ∧ size (Room.participants room) = 0.

#[global] Instance stale_dec now room : Decision (stale now room).
Proof. unfold stale. apply _. Defined.

Definition room_cleanup (st : server) (now : Z) : server :=
  Server (filter (λ kv, ¬ stale now kv.2) (rooms st))
         (connectedUsers st) (sockets st).

(** ** The server as a transition system *)

Inductive input :=
| from_socket (sid : string) (now : Z) (e : In.event)
| cleanup_tick (now : Z).

Definition handle (st : server) (sid : string) (now : Z) (e : In.event)
    : server * list effect :=
  match e with
  | In.create_room roomId username => on_create_room st sid now roomId username
  | In.join_room roomId username => on_join_room st sid now roomId username
  | In.toggle_ready ready => on_toggle_ready st sid ready
  | In.start_session => on_start_session st sid
  | In.drawing data => on_drawing st sid now data
  | In.chat_message message => on_chat_message st sid now message
  | In.file_upload_started data => on_file_upload_started st sid data
  | In.background_image_set imageData filename username =>
      on_background_image_set st sid imageData filename username
  | In.background_cleared username => on_background_cleared st sid username
  | In.file_shared type data => on_file_shared st sid type data
  | In.presentation_shared slides currentSlide filename username =>
      on_presentation_shared st sid slides currentSlide filename username
  | In.slide_changed slideIndex => on_slide_changed st sid slideIndex
  | In.slide_drawings_cleared slideIndex =>
      on_slide_drawings_cleared st sid slideIndex
  | In.text_added data => on_text_added st sid now data
  | In.clear_canvas => on_clear_canvas st sid
  | In.toggle_participant_drawing => on_toggle_participant_drawing st sid
  | In.toggle_participant_chat => on_toggle_participant_chat st sid
  | In.kick_participant targetUserId => on_kick_participant st sid targetUserId
  | In.leave_room => leaveRoom st sid
  | In.disconnect => on_disconnect st sid
  end.

Definition step (st : server) (i : input) : server * list effect :=
  match i with
  | from_socket sid now e => handle st sid now e
  | cleanup_tick now => (room_cleanup st now, [])
  end.

(** The state after a sequence of inputs, oldest first. *)
Definition run (st : server) (inputs : list input) : server :=
  foldl (λ s i, (step s i).1) st inputs.

(** States the server can be in: those reached from the empty tables by
    inputs that each satisfy the guard [ok] in the state they arrive in. *)
Inductive reachable_by (ok : server → input → Prop) : server → Prop :=
| reachable_initial : reachable_by ok initial
| reachable_step st i :
    reachable_by ok st → ok st i → reachable_by ok (step st i).1.

Definition reachable : server → Prop := reachable_by (λ _ _, True).

(** ** Vocabulary of the statements *)

(** [socket.roomId] is set and [rooms.get(socket.roomId)] finds a room. *)
Definition bound_to (st : server) (sid : string) (socket : Socket.t)
    (room : Room.t) : Prop :=
  sockets st !! sid = Some socket
  ∧ truthy (Socket.roomId socket) = true
  ∧ rooms st !! Socket.roomId socket = Some room.

Ltac enter_handler Hbound :=
  let Hs := fresh "Hsocket" in
  let Ht := fresh "Htruthy" in
  let Hr := fresh "Hroom" in
  destruct Hbound as (Hs & Ht & Hr);
  cbn [handle step fst snd];
  unfold on_clear_canvas, on_background_image_set, on_background_cleared,
    on_file_shared, on_presentation_shared, on_slide_changed,
    on_slide_drawings_cleared, on_drawing, on_toggle_ready;
  rewrite ?Hs; cbn [negb orb]; rewrite ?Ht; cbn [negb orb]; rewrite ?Hr.

(** The condition under which [clear-canvas] goes through. *)
Definition may_clear (socket : Socket.t) (room : Room.t) : Prop :=
  Socket.role socket = Host
  ∨ Settings.hostCanClear (Room.settings room) = false.

(** What it means for a [clear-canvas] to have been carried out and
    announced: the bound room's flat log is empty, the current slide has
    no log, and the notice went to the whole room. *)
Definition cleared_and_broadcast (socket : Socket.t) (room : Room.t)
    (res : server * list effect) : Prop :=
  (∃ room', rooms res.1 !! Socket.roomId socket = Some room'
      ∧ Room.drawings room' = []
      ∧ Room.slideDrawings room' !! slideKey (Room.currentSlide room) = None)
  ∧ to_room (Socket.roomId socket)
      (Out.clear_canvas (Socket.username socket) (Socket.role socket)) ∈ res.2.

(** The server after the artifact fields of the room under [roomId] have
    been overwritten; every other field of the room is kept. *)
Definition put_artifacts (st : server) (roomId : string) (room : Room.t)
    (backgroundImage : option string) (slides : list string)
    (currentSlide : option Z) (slideDrawings : gmap string (list Drawing.t))
    : server :=
  set_room roomId
    (Room.mk (Room.id room) (Room.host room) (Room.state room)
       (Room.participants room) (Room.drawings room) backgroundImage slides
       currentSlide slideDrawings (Room.settings room) (Room.createdAt room))
    st.

(** The two gates of the [drawing] handler: the room is in its active
    phase, and the sender is in the directory with role host or with
    [participantsCanDraw] switched on. *)
Definition may_draw (room : Room.t) (sid : string) : Prop :=
  Room.state room = ACTIVE
  ∧ ∃ participant, Room.participants room !! sid = Some participant
      ∧ (Participant.role participant = Host
         ∨ Settings.participantsCanDraw (Room.settings room) = true).

(** The record built from a [drawing] payload: [drawingData]. *)
Definition attributed (socket : Socket.t) (sid : string) (now : Z)
    (data : Stroke.t) : Drawing.t :=
  Drawing.mk (Stroke.type data) (Stroke.slideIndex data) (Stroke.payload data)
             sid (Socket.username socket) (Socket.role socket) now.

(** The strokes logged for a slide key; a key without a log has none. *)
Definition slide_log (room : Room.t) (key : string) : list Drawing.t :=
  default [] (Room.slideDrawings room !! key).

(** [record] was pushed onto the flat log of the room under [roomId]. *)
Definition appended_to_log (st st' : server) (roomId : string)
    (record : Drawing.t) : Prop :=
  ∃ room room', rooms st !! roomId = Some room
    ∧ rooms st' !! roomId = Some room'
    ∧ Room.drawings room' = Room.drawings room ++ [record].

(** ** Invariants and frames *)

(** [st'] has the connection tables of [st], and every room of [st'] is a
    room of [st] with the same directory and creator. *)
Definition same_directory (st st' : server) : Prop :=
  sockets st' = sockets st
  ∧ connectedUsers st' = connectedUsers st
  ∧ ∀ k room', rooms st' !! k = Some room' →
      ∃ room, rooms st !! k = Some room
        ∧ Room.participants room' = Room.participants room
        ∧ Room.host room' = Room.host room.

(** Inputs whose handlers touch neither a directory nor a connection
    table. *)
Definition artifact_input (i : input) : bool :=
  match i with
  | cleanup_tick _ => true
  | from_socket _ _ e =>
    match e with
    | In.create_room _ _ | In.join_room _ _ | In.toggle_ready _
    | In.kick_participant _ | In.leave_room | In.disconnect => false
    | _ => true
    end
  end.

(** Every directory entry with role host has its readiness flag set. *)
Definition hosts_ready (st : server) : Prop :=
  ∀ k room sid p, rooms st !! k = Some room →
    Room.participants room !! sid = Some p →
    Participant.role p = Host → Participant.ready p = true.

(** A socket bound to room [k] whose entry in that room has role host
    carries role host itself. *)
Definition host_entries_own (st : server) : Prop :=
  ∀ k room sid p socket, rooms st !! k = Some room →
    Room.participants room !! sid = Some p →
    Participant.role p = Host →
    sockets st !! sid = Some socket → Socket.roomId socket = k →
    Socket.role socket = Host.

(** Only the creator's entry can have role host. *)
Definition host_entry_is_creator (st : server) : Prop :=
  ∀ k room sid p, rooms st !! k = Some room →
    Room.participants room !! sid = Some p →
    Participant.role p = Host → sid = Room.host room.

(** No room is registered under the empty id. *)
Definition keys_truthy (st : server) : Prop :=
  ∀ k room, rooms st !! k = Some room → truthy k = true.

(** An entry of [connectedUsers] repeats what the socket object says. *)
Definition bindings_agree (st : server) : Prop :=
  ∀ sid u, connectedUsers st !! sid = Some u →
    ∃ socket, sockets st !! sid = Some socket
      ∧ Socket.roomId socket = UserInfo.roomId u
      ∧ Socket.role socket = UserInfo.role u.

(** The invariants of the directories and the connection tables that hold
    in every reachable state. *)
Record directory_inv (st : server) : Prop := {
  inv_ready : hosts_ready st;
  inv_own : host_entries_own st;
  inv_creator : host_entry_is_creator st;
  inv_keys : keys_truthy st;
  inv_bindings : bindings_agree st
}.

(** Rooms, directory entries and bindings only disappear. *)
Definition directory_shrinks (st st' : server) : Prop :=
  (∀ sid socket, sockets st' !! sid = Some socket → sockets st !! sid = Some socket)
  ∧ (∀ sid u, connectedUsers st' !! sid = Some u →
       connectedUsers st !! sid = Some u ∧ sockets st' !! sid = sockets st !! sid)
  ∧ (∀ k room', rooms st' !! k = Some room' →
       ∃ room, rooms st !! k = Some room
         ∧ Room.host room' = Room.host room
         ∧ ∀ sid p, Room.participants room' !! sid = Some p →
                    Room.participants room !! sid = Some p).

(** The connections recorded with role host in a room's directory. *)
Definition hosts (room : Room.t) : gset string :=
  dom (filter (λ entry, Participant.role entry.2 = Host) (Room.participants room)).

(** create-room and join-room arrive only from connections that hold no
    binding. *)
Definition binds_once (st : server) (i : input) : Prop :=
  match i with
  | from_socket sid _ (In.create_room _ _) | from_socket sid _ (In.join_room _ _) =>
      connectedUsers st !! sid = None
  | _ => True
  end.

(** The creator of every live room is seated in it as host and is bound
    to it as host. *)
Definition hosted (st : server) : Prop :=
  ∀ k room, rooms st !! k = Some room →
    (∃ p, Room.participants room !! Room.host room = Some p
          ∧ Participant.role p = Host)
    ∧ (∃ u, connectedUsers st !! Room.host room = Some u
          ∧ UserInfo.roomId u = k ∧ UserInfo.role u = Host).

(** No connection sends join-room for a room it created: the target room,
    when it is live, was created by somebody else. *)
Definition no_self_join (st : server) (i : input) : Prop :=
  match i with
  | from_socket sid _ (In.join_room roomId _) =>
      ∀ room, rooms st !! roomId = Some room → Room.host room ≠ sid
  | _ => True
  end.

(** The creator of every live room is seated in it with role host. *)
Definition seated_host (st : server) : Prop :=
  ∀ k room, rooms st !! k = Some room →
    ∃ p, Room.participants room !! Room.host room = Some p
      ∧ Participant.role p = Host.

(** A creator that is bound to its own room is bound to it as host. *)
Definition creator_binding (st : server) : Prop :=
  ∀ k room u, rooms st !! k = Some room →
    connectedUsers st !! Room.host room = Some u →
    UserInfo.roomId u = k → UserInfo.role u = Host.

(** ** Slide index *)

(** [index] addresses a slide of [deck], or is 0 on an empty deck. *)
Definition valid_index (index : option Z) (deck : list string) : Prop :=
  match index with
  | Some i => (0 ≤ i < Z.of_nat (length deck))%Z ∨ (deck = [] ∧ i = 0%Z)
  | None => False
  end.

(** The room's current slide index fits its deck. *)
Definition slide_index_ok (room : Room.t) : Prop :=
  valid_index (Room.currentSlide room) (Room.slides room).

(** Every room of the registry has a valid current slide index. *)
Definition decks_ok (st : server) : Prop :=
  ∀ k room, rooms st !! k = Some room → slide_index_ok room.

(** The senders of slide-changed and presentation-shared pick an index
    that exists in the deck it is going to address. *)
Definition index_checked (st : server) (i : input) : Prop :=
  match i with
  | from_socket sid _ (In.slide_changed slideIndex) =>
      ∀ socket room, bound_to st sid socket room →
        valid_index slideIndex (Room.slides room)
  | from_socket _ _ (In.presentation_shared slides currentSlide _ _) =>
      valid_index (Some (or_zero currentSlide)) slides
  | _ => True
  end.

(** Inputs whose handlers write neither [slides] nor [currentSlide] of an
    existing room and create no room. *)
Definition keeps_deck (i : input) : bool :=
  match i with
  | cleanup_tick _ => true
  | from_socket _ _ e =>
    match e with
    | In.create_room _ _ | In.background_image_set _ _ _
    | In.background_cleared _ | In.file_shared _ _
    | In.presentation_shared _ _ _ _ | In.slide_changed _ => false
    | _ => true
    end
  end.

(** Every room of [st'] is a room of [st] with the same deck and current
    slide index. *)
Definition same_deck (st st' : server) : Prop :=
  ∀ k room', rooms st' !! k = Some room' →
    ∃ room, rooms st !! k = Some room
      ∧ Room.slides room' = Room.slides room
      ∧ Room.currentSlide room' = Room.currentSlide room.

(** The events that replace the background or the presentation. *)
Definition replaces_content (e : In.event) : Prop :=
  match e with
  | In.background_image_set _ _ _ => True
  | In.file_shared type _ => type = "image"
  | In.presentation_shared _ _ _ _ => True
  | _ => False
  end.

(** ** Traces *)

(** Every input of the trace satisfies [ok] in the state it arrives in. *)
Fixpoint guarded (ok : server → input → Prop) (st : server)
    (inputs : list input) : Prop :=
  match inputs with
  | [] => True
  | i :: rest => ok st i ∧ guarded ok (step st i).1 rest
  end.

(** The room stored under [k]; a blank ended room when there is none. *)
Definition room_of (st : server) (k : string) : Room.t :=
  default (Room.mk "" "" ENDED ∅ [] None [] None ∅ Settings.initial 0)
          (rooms st !! k).

(** ** Sample runs *)

(** Alice opens room R1 and Bob joins the lobby. *)
Definition lobby : server :=
  run initial
    [from_socket "s1" 1 (In.create_room "R1" "Alice");
     from_socket "s2" 2 (In.join_room "R1" "Bob")].

(** The host starts the session and Bob draws on slides 0 and 1. *)
Definition session_inputs : list input :=
  [from_socket "s1" 1 (In.create_room "R1" "Alice");
   from_socket "s2" 2 (In.join_room "R1" "Bob");
   from_socket "s1" 3 In.start_session;
   from_socket "s2" 4 (In.drawing (Stroke.mk "draw" (Some 0%Z) "stroke-a"));
   from_socket "s2" 5 (In.drawing (Stroke.mk "draw" (Some 1%Z) "stroke-b"))].

(** The active session those inputs lead to. *)
Definition session : server := run initial session_inputs.

(** Bob has left the lobby; his socket still carries the room id. *)
Definition lobby_after_leave : server :=
  run lobby [from_socket "s2" 3 In.leave_room].

(** The creator of R1 sends join-room for its own room. *)
Definition rejoined : server :=
  run initial
    [from_socket "s1" 1 (In.create_room "R1" "Alice");
     from_socket "s1" 2 (In.join_room "R1" "Alice")].

(** Bob, seated in R1, opens room R2 without leaving: a connection that
    binds a second time. *)
Definition rebound_inputs : list input :=
  [from_socket "s1" 1 (In.create_room "R1" "Alice");
   from_socket "s2" 2 (In.join_room "R1" "Bob");
   from_socket "s2" 3 (In.create_room "R2" "Bob")].

(** The two rooms those inputs lead to. *)
Definition rebound : server := run initial rebound_inputs.

(** A slide change to index 5 while the deck is empty. *)
Definition off_deck : server :=
  run initial
    [from_socket "s1" 1 (In.create_room "R1" "Alice");
     from_socket "s1" 2 (In.slide_changed (Some 5%Z))].

(** A three-slide presentation shared by Bob and opened on its last
    slide, then a change to the middle slide. *)
Definition presenting_inputs : list input :=
  session_inputs ++
  [from_socket "s2" 6
     (In.presentation_shared ["p1"; "p2"; "p3"] (Some 2%Z) "deck.pdf" "Bob");
   from_socket "s1" 7 (In.slide_changed (Some 1%Z))].

(** The session with the presentation on its middle slide. *)
Definition presenting : server := run initial presenting_inputs.

(** Room R1 filled to its cap: the host and 49 participants. *)
Definition crowd : list input :=
  from_socket "s1" 1 (In.create_room "R1" "Alice")
  :: map (λ n : nat,
            from_socket ("p" +:+ number_to_string (Z.of_nat n)) 2
              (In.join_room "R1" "guest"))
         (seq 1 49).

(** The server once the crowd is in. *)
Definition full_house : server := run initial crowd.

(** The socket fields of the two connections of the sample runs. *)
Definition alice : Socket.t := Socket.mk "R1" "Alice" Host.
Definition bob : Socket.t := Socket.mk "R1" "Bob" Participant.

(** A further stroke by Bob on slide 1. *)
Definition stroke_c : Stroke.t := Stroke.mk "draw" (Some 1%Z) "stroke-c".

(** Closed goals about the sample runs are settled by evaluation. *)
Ltac evaluate := vm_compute; reflexivity.
Ltac bound_by_evaluation := split; [|split]; evaluate.

(** ** Vocabulary of the further properties *)

(** The room [create-room] registers: [newRoom] with the host seated. *)
Definition fresh_room (roomId sid username : string) (now : Z) : Room.t :=
  Room.mk roomId sid LOBBY
    {[ sid := Participant.mk sid username Host true now ]}
    [] None [] (Some 0%Z) ∅ Settings.initial now.

(** A record as the [drawing] handler files it under a slide key: a
    committed stroke sent for that very slide. *)
Definition committed (key : string) (record : Drawing.t) : Prop :=
  Drawing.type record = "draw"
  ∧ ∃ index, Drawing.slideIndex record = Some index
      ∧ key = slideKey (Some index).

(** What one step can do to a directory: nothing, seat a joiner below the
    cap, rewrite the readiness of a seated participant, or remove one
    entry and leave somebody behind. *)
Definition directory_evolves (cap : nat)
    (ps ps' : gmap string Participant.t) : Prop :=
  ps' = ps
  ∨ (∃ sid username now,
       ps' = <[sid := Participant.mk sid username Participant false now]> ps
       ∧ size ps < cap)
  ∨ (∃ sid p ready,
       ps !! sid = Some p ∧ ps' = <[sid := Participant.with_ready ready p]> ps)
  ∨ (∃ sid, ps' = delete sid ps ∧ size ps' ≠ 0).

(** What one step can do to a room that stays in the registry. *)
Record room_evolves (room room' : Room.t) : Prop := {
  ev_id : Room.id room' = Room.id room;
  ev_host : Room.host room' = Room.host room;
  ev_createdAt : Room.createdAt room' = Room.createdAt room;
  ev_hostCanClear :
    Settings.hostCanClear (Room.settings room')
    = Settings.hostCanClear (Room.settings room);
  ev_hostCanMute :
    Settings.hostCanMute (Room.settings room')
    = Settings.hostCanMute (Room.settings room);
  ev_maxParticipants :
    Settings.maxParticipants (Room.settings room')
    = Settings.maxParticipants (Room.settings room);
  ev_state :
    Room.state room' = Room.state room
    ∨ (Room.state room = LOBBY ∧ Room.state room' = ACTIVE);
  ev_participants :
    directory_evolves (Settings.maxParticipants (Room.settings room))
      (Room.participants room) (Room.participants room');
  ev_slideDrawings :
    ∀ key log' record,
      Room.slideDrawings room' !! key = Some log' → record ∈ log' →
      (∃ log, Room.slideDrawings room !! key = Some log ∧ record ∈ log)
      ∨ committed key record
}.

(** Every room of [st'] is a room of [st] that evolved. *)
Definition rooms_evolve (st st' : server) : Prop :=
  ∀ k room', rooms st' !! k = Some room' →
    ∃ room, rooms st !! k = Some room ∧ room_evolves room room'.

(** What holds of every room of a reachable registry. *)
Record sound_room (k : string) (room : Room.t) : Prop := {
  sound_id : Room.id room = k;
  sound_state : Room.state room ≠ ENDED;
  sound_hostCanClear : Settings.hostCanClear (Room.settings room) = true;
  sound_hostCanMute : Settings.hostCanMute (Room.settings room) = true;
  sound_maxParticipants : Settings.maxParticipants (Room.settings room) = 50;
  sound_size : 1 ≤ size (Room.participants room) ≤ 50;
  sound_seats :
    ∀ sid p, Room.participants room !! sid = Some p → Participant.id p = sid;
  sound_slideDrawings :
    ∀ key log record, Room.slideDrawings room !! key = Some log →
      record ∈ log → committed key record
}.

(** Rooms present before and after have kept their lifecycle state. *)
Definition same_state (st st' : server) : Prop :=
  ∀ k room room', rooms st !! k = Some room → rooms st' !! k = Some room' →
    Room.state room' = Room.state room.

(** The gate of [chat-message]: the sender is in the directory, as host
    or with [participantsCanChat] switched on. *)
Definition may_chat (room : Room.t) (sid : string) : Prop :=
  ∃ p, Room.participants room !! sid = Some p
    ∧ (Participant.role p = Host
       ∨ Settings.participantsCanChat (Room.settings room) = true).

(** The gate of [text-added]: as for drawing, without the lifecycle test. *)
Definition may_annotate (room : Room.t) (sid : string) : Prop :=
  ∃ p, Room.participants room !! sid = Some p
    ∧ (Participant.role p = Host
       ∨ Settings.participantsCanDraw (Room.settings room) = true).

(** The record [text-added] stores in the flat log. *)
Definition text_record (socket : Socket.t) (sid : string) (now : Z)
    (data : TextData.t) : Drawing.t :=
  Drawing.mk (default "text" (TextData.type data)) None (TextData.payload data)
             sid (Socket.username socket) (Socket.role socket) now.

(** The replies that turn a request down. *)
Definition refusal (m : Out.message) : Prop :=
  match m with
  | Out.error _ | Out.room_exists | Out.room_not_found | Out.room_full => True
  | _ => False
  end.

(** The message an emission carries. *)
Definition carries (eff : effect) (m : Out.message) : Prop :=
  match eff with
  | to_socket _ m' | to_room _ m' | to_others _ _ m' | to_room_later _ _ _ m' =>
      m' = m
  | join_group _ _ | drop_connection _ => False
  end.

(** Carol opens a second room next to the lobby. *)
Definition two_rooms : server :=
  run lobby [from_socket "s3" 3 (In.create_room "R2" "Carol")].

(** Case analysis on membership in an explicit list of effects. *)
Ltac split_effects H :=
  repeat (apply elem_of_cons in H as [->|H]);
  try (by apply not_elem_of_nil in H).

(** An element of the list served by [GET /api/rooms]. *)
Module RoomSummary.
Record t := mk {
  id : string;
  state : room_state;
  participantCount : nat;
  maxParticipants : nat;
  createdAt : Z;
  host : option string
}.
End RoomSummary.

(** The body served by [GET /api/room/:id] for a live room. *)
Module RoomDetail.
Record t := mk {
  id : string;
  state : room_state;
  participantCount : nat;
  participants : gmap string Participant.t;
  settings : Settings.t;
  createdAt : Z
}.
End RoomDetail.

(** An HTTP answer: a JSON body, or status 404 with its error text. *)
Inductive response (A : Type) :=
| json (body : A)
| status_404 (error : string).
Global Arguments json {A} body.
Global Arguments status_404 {A} error.

(** [values] is [Array.from(room.participants.values())]: the entries of
    the directory, in whatever order the [Map] yields them. *)
Definition lists_directory (values : list Participant.t) (room : Room.t) : Prop :=
  values ≡ₚ (map_to_list (Room.participants room)).*2.

(** [values.find(p => p.role === 'host')?.username]. *)
Definition find_host (values : list Participant.t) : option string :=
  Participant.username <$> head (filter (λ p, Participant.role p = Host) values).

(** The element [app.get('/api/rooms')] builds for one registry entry. *)
Definition room_summary (id : string) (room : Room.t)
    (values : list Participant.t) : RoomSummary.t :=
  RoomSummary.mk id (Room.state room) (size (Room.participants room))
    (Settings.maxParticipants (Room.settings room)) (Room.createdAt room)
    (find_host values).

(** [app.get('/api/room/:id')]. *)
Definition api_room (st : server) (id : string) : response RoomDetail.t :=
  match rooms st !! id with
  | Some room =>
      json (RoomDetail.mk id (Room.state room) (size (Room.participants room))
              (Room.participants room) (Room.settings room) (Room.createdAt room))
  | None => status_404 "Room not found"
  end.

(** * Properties *)

(** ** Slide keys *)

Lemma to_int_proper (z : Z) :
  Z.to_int z ≠ Decimal.Pos Decimal.Nil ∧ Z.to_int z ≠ Decimal.Neg Decimal.Nil.
Proof.
  destruct z as [|p|p]; simpl; split; try discriminate;
    intros [= H]; by apply Unsigned.to_uint_nonnil in H.
Qed.

Lemma number_to_string_parse (z : Z) :
  NilZero.int_of_string (number_to_string z) = Some (Z.to_int z).
Proof.
  destruct (to_int_proper z) as [Hpos Hneg].
  unfold number_to_string. by apply NilZero.isi.
Qed.

Lemma number_to_string_inj (a b : Z) :
  number_to_string a = number_to_string b → a = b.
Proof.
  intros Heq.
  assert (Some (Z.to_int a) = Some (Z.to_int b)) as [= Hab].
  { rewrite <- !number_to_string_parse. by rewrite Heq. }
  by apply to_int_inj.
Qed.

Lemma number_to_string_defined (z : Z) : number_to_string z ≠ "undefined".
Proof.
  intros Heq. pose proof (number_to_string_parse z) as Hparse.
  rewrite Heq in Hparse. vm_compute in Hparse. discriminate.
Qed.

(** Distinct slide indices never share a per-slide log. *)
Lemma slideKey_inj (i j : option Z) : slideKey i = slideKey j → i = j.
Proof.
  destruct i as [a|], j as [b|]; unfold slideKey; intros Heq; try done.
  - f_equal. apply number_to_string_inj.
    by apply (String.app_inj "slide_").
  - apply (String.app_inj "slide_" _ "undefined") in Heq.
    by apply number_to_string_defined in Heq.
  - symmetry in Heq. apply (String.app_inj "slide_" _ "undefined") in Heq.
    by apply number_to_string_defined in Heq.
Qed.

Lemma may_clear_test (socket : Socket.t) (room : Room.t) :
  bool_decide (Socket.role socket = Host)
  || negb (Settings.hostCanClear (Room.settings room)) = true
  ↔ may_clear socket room.
Proof.
  unfold may_clear.
  rewrite orb_true_iff, bool_decide_eq_true, negb_true_iff. tauto.
Qed.

Lemma clear_canvas_allowed st sid now socket room :
  bound_to st sid socket room → may_clear socket room →
  handle st sid now In.clear_canvas =
    (set_room (Socket.roomId socket)
       (Room.mk (Room.id room) (Room.host room) (Room.state room)
          (Room.participants room) [] (Room.backgroundImage room)
          (Room.slides room) (Room.currentSlide room)
          (delete (slideKey (Room.currentSlide room)) (Room.slideDrawings room))
          (Room.settings room) (Room.createdAt room)) st,
     [to_room (Socket.roomId socket)
        (Out.clear_canvas (Socket.username socket) (Socket.role socket))]).
Proof.
  intros Hbound Hmay. enter_handler Hbound.
  apply may_clear_test in Hmay. by rewrite Hmay.
Qed.

Lemma clear_canvas_denied st sid now socket room :
  bound_to st sid socket room → ¬ may_clear socket room →
  handle st sid now In.clear_canvas = (st, []).
Proof.
  intros Hbound Hmay. enter_handler Hbound.
  rewrite <- may_clear_test in Hmay.
  by apply not_true_is_false in Hmay as ->.
Qed.

(** C5: for a clear-canvas event from a bound sender whose room exists,
    the clear is performed and broadcast exactly when the sender's role is
    host or the room's hostCanClear setting is false; otherwise the event
    changes nothing and emits nothing.  In particular a participant
    clears exactly when hostCanClear is false. *)
Theorem clear_canvas_gate st sid now socket room :
  bound_to st sid socket room →
  (cleared_and_broadcast socket room (handle st sid now In.clear_canvas)
     ↔ may_clear socket room)
  ∧ (¬ may_clear socket room → handle st sid now In.clear_canvas = (st, []))
  ∧ (Socket.role socket = Participant →
       (cleared_and_broadcast socket room (handle st sid now In.clear_canvas)
          ↔ Settings.hostCanClear (Room.settings room) = false)).
Proof.
  intros Hbound.
  assert (cleared_and_broadcast socket room (handle st sid now In.clear_canvas)
            ↔ may_clear socket room) as Hiff.
  { split.
    - intros [_ Hsent]. destruct (decide (may_clear socket room)) as [|Hno]; [done|].
      rewrite (clear_canvas_denied _ _ _ _ _ Hbound Hno) in Hsent.
      by apply not_elem_of_nil in Hsent.
    - intros Hmay. rewrite (clear_canvas_allowed _ _ _ _ _ Hbound Hmay).
      split; [|apply list_elem_of_here].
      eexists. cbn. rewrite lookup_insert_eq. split; [done|].
      cbn. split; [done|]. apply lookup_delete_eq. }
  split; [done|]. split; [by apply clear_canvas_denied|].
  intros Hrole. rewrite Hiff. unfold may_clear. rewrite Hrole.
  split; [intros [|]; done | by right].
Qed.

(** C10: a permitted clear-canvas empties the flat drawing log and
    removes the log of the current slide only; the logs of all other slide
    indices, the deck, the current slide index, the background image, the
    settings and the participant directory stay as they were, and so do
    the other rooms and the connection tables. *)
Theorem clear_canvas_frame st sid now socket room :
  bound_to st sid socket room → may_clear socket room →
  let st' := (handle st sid now In.clear_canvas).1 in
  ∃ room', rooms st' !! Socket.roomId socket = Some room'
    ∧ Room.drawings room' = []
    ∧ Room.slideDrawings room' !! slideKey (Room.currentSlide room) = None
    ∧ (∀ key, key ≠ slideKey (Room.currentSlide room) →
         Room.slideDrawings room' !! key = Room.slideDrawings room !! key)
    ∧ (∀ index, index ≠ Room.currentSlide room →
         Room.slideDrawings room' !! slideKey index
         = Room.slideDrawings room !! slideKey index)
    ∧ Room.slides room' = Room.slides room
    ∧ Room.currentSlide room' = Room.currentSlide room
    ∧ Room.backgroundImage room' = Room.backgroundImage room
    ∧ Room.settings room' = Room.settings room
    ∧ Room.participants room' = Room.participants room
    ∧ Room.state room' = Room.state room
    ∧ (∀ other, other ≠ Socket.roomId socket → rooms st' !! other = rooms st !! other)
    ∧ connectedUsers st' = connectedUsers st
    ∧ sockets st' = sockets st.
Proof.
  intros Hbound Hmay st'. subst st'.
  rewrite (clear_canvas_allowed _ _ _ _ _ Hbound Hmay). cbn.
  eexists. rewrite lookup_insert_eq. split; [done|]. cbn.
  split; [done|]. split; [apply lookup_delete_eq|].
  split; [intros key Hne; by apply lookup_delete_ne|].
  split.
  { intros index Hne. apply lookup_delete_ne.
    intros Hkey. apply slideKey_inj in Hkey. congruence. }
  repeat (split; [done|]).
  split; [|done]. intros other Hne. by apply lookup_insert_ne.
Qed.

(** ** Artifact events *)

Section artifact_outcomes.
Context (st : server) (sid : string) (now : Z) (socket : Socket.t) (room : Room.t).
Hypothesis Hbound : bound_to st sid socket room.

Let roomId := Socket.roomId socket.
Let put := put_artifacts st roomId room.

Lemma background_image_set_outcome imageData filename username :
  handle st sid now (In.background_image_set imageData filename username) =
    (put (Some imageData) [imageData] (Some 0%Z) (Room.slideDrawings room),
     [to_others roomId sid (Out.background_image_set imageData filename username)]).
Proof. by enter_handler Hbound. Qed.

Lemma background_cleared_outcome username :
  handle st sid now (In.background_cleared username) =
    (put None [] (Some 0%Z) ∅,
     [to_others roomId sid (Out.background_cleared username)]).
Proof. by enter_handler Hbound. Qed.

Lemma file_shared_image_outcome data :
  handle st sid now (In.file_shared "image" data) =
    (put (Some data) [data] (Some 0%Z) (Room.slideDrawings room),
     [to_others roomId sid (Out.file_shared "image" data (Socket.username socket))]).
Proof. by enter_handler Hbound. Qed.

Lemma file_shared_other_outcome type data :
  type ≠ "image" →
  handle st sid now (In.file_shared type data) =
    (set_room roomId room st,
     [to_others roomId sid (Out.file_shared type data (Socket.username socket))]).
Proof. intros Hne. enter_handler Hbound. by rewrite decide_False. Qed.

Lemma presentation_shared_outcome slides currentSlide filename username :
  handle st sid now (In.presentation_shared slides currentSlide filename username) =
    (put (Room.backgroundImage room) slides (Some (or_zero currentSlide)) ∅,
     [to_others roomId sid
        (Out.presentation_shared slides filename (Some (or_zero currentSlide))
           username)]).
Proof. by enter_handler Hbound. Qed.

Lemma slide_changed_outcome slideIndex :
  handle st sid now (In.slide_changed slideIndex) =
    (put (Room.backgroundImage room) (Room.slides room) slideIndex
         (Room.slideDrawings room),
     [to_others roomId sid (Out.slide_changed slideIndex)]).
Proof. by enter_handler Hbound. Qed.

Lemma slide_drawings_cleared_outcome slideIndex :
  handle st sid now (In.slide_drawings_cleared slideIndex) =
    (put (Room.backgroundImage room) (Room.slides room) (Room.currentSlide room)
         (delete (slideKey slideIndex) (Room.slideDrawings room)),
     [to_others roomId sid (Out.slide_drawings_cleared slideIndex)]).
Proof. by enter_handler Hbound. Qed.

End artifact_outcomes.

Lemma lookup_put_artifacts st roomId room backgroundImage slides currentSlide
    slideDrawings :
  rooms (put_artifacts st roomId room backgroundImage slides currentSlide
           slideDrawings) !! roomId
  = Some (Room.mk (Room.id room) (Room.host room) (Room.state room)
            (Room.participants room) (Room.drawings room) backgroundImage
            slides currentSlide slideDrawings (Room.settings room)
            (Room.createdAt room)).
Proof. apply lookup_insert_eq. Qed.

(** C8: from a connection bound to an existing room, background-image-set,
    background-cleared, file-shared, presentation-shared, slide-changed
    and slide-drawings-cleared are applied and relayed whatever the
    sender's role, the room's lifecycle state and the participant
    directory are: the outcome below is reached with no assumption on any
    of them (so also in the lobby, for a participant, and for a sender
    that is no longer in the directory), and it leaves lifecycle state and
    directory as they were. *)
Theorem artifact_events_unguarded st sid now socket room :
  bound_to st sid socket room →
  let roomId := Socket.roomId socket in
  let put := put_artifacts st roomId room in
  (∀ imageData filename username,
     handle st sid now (In.background_image_set imageData filename username) =
       (put (Some imageData) [imageData] (Some 0%Z) (Room.slideDrawings room),
        [to_others roomId sid
           (Out.background_image_set imageData filename username)]))
  ∧ (∀ username,
     handle st sid now (In.background_cleared username) =
       (put None [] (Some 0%Z) ∅,
        [to_others roomId sid (Out.background_cleared username)]))
  ∧ (∀ type data,
     handle st sid now (In.file_shared type data) =
       (if decide (type = "image")
        then put (Some data) [data] (Some 0%Z) (Room.slideDrawings room)
        else set_room roomId room st,
        [to_others roomId sid
           (Out.file_shared type data (Socket.username socket))]))
  ∧ (∀ slides currentSlide filename username,
     handle st sid now
       (In.presentation_shared slides currentSlide filename username) =
       (put (Room.backgroundImage room) slides (Some (or_zero currentSlide)) ∅,
        [to_others roomId sid
           (Out.presentation_shared slides filename
              (Some (or_zero currentSlide)) username)]))
  ∧ (∀ slideIndex,
     handle st sid now (In.slide_changed slideIndex) =
       (put (Room.backgroundImage room) (Room.slides room) slideIndex
            (Room.slideDrawings room),
        [to_others roomId sid (Out.slide_changed slideIndex)]))
  ∧ (∀ slideIndex,
     handle st sid now (In.slide_drawings_cleared slideIndex) =
       (put (Room.backgroundImage room) (Room.slides room)
            (Room.currentSlide room)
            (delete (slideKey slideIndex) (Room.slideDrawings room)),
        [to_others roomId sid (Out.slide_drawings_cleared slideIndex)])).
Proof.
  intros Hbound roomId put. subst roomId put.
  split; [intros; by apply background_image_set_outcome|].
  split; [intros; by apply background_cleared_outcome|].
  split.
  { intros type data. destruct (decide (type = "image")) as [->|Hne].
    - by apply file_shared_image_outcome.
    - by apply file_shared_other_outcome. }
  split; [intros; by apply presentation_shared_outcome|].
  split; [intros; by apply slide_changed_outcome|].
  intros; by apply slide_drawings_cleared_outcome.
Qed.

(** C1 (as the handlers have it): background-image-set and file-shared
    of kind image leave the current slide index at 0 on a deck holding
    just the new image; presentation-shared installs the given deck,
    empties every per-slide drawing log and sets the current slide index
    to the index carried by the event, 0 when the event carries none. *)
Theorem content_swap_resets st sid now socket room :
  bound_to st sid socket room →
  let after e := rooms (handle st sid now e).1 !! Socket.roomId socket in
  (∀ imageData filename username,
     ∃ room', after (In.background_image_set imageData filename username) = Some room'
       ∧ Room.currentSlide room' = Some 0%Z
       ∧ Room.slides room' = [imageData])
  ∧ (∀ data,
     ∃ room', after (In.file_shared "image" data) = Some room'
       ∧ Room.currentSlide room' = Some 0%Z
       ∧ Room.slides room' = [data])
  ∧ (∀ slides currentSlide filename username,
     ∃ room', after (In.presentation_shared slides currentSlide filename username)
                = Some room'
       ∧ Room.currentSlide room' = Some (or_zero currentSlide)
       ∧ (currentSlide = None → Room.currentSlide room' = Some 0%Z)
       ∧ Room.slides room' = slides
       ∧ Room.slideDrawings room' = ∅
       ∧ (∀ index, Room.slideDrawings room' !! slideKey index = None)).
Proof.
  intros Hbound after. subst after.
  split; [|split].
  - intros. rewrite (background_image_set_outcome _ _ _ _ _ Hbound).
    cbn [fst]. rewrite lookup_put_artifacts. by eexists.
  - intros. rewrite (file_shared_image_outcome _ _ _ _ _ Hbound).
    cbn [fst]. rewrite lookup_put_artifacts. by eexists.
  - intros. rewrite (presentation_shared_outcome _ _ _ _ _ Hbound).
    cbn [fst]. rewrite lookup_put_artifacts. eexists.
    split; [done|]. cbn. split; [done|]. split; [by intros ->|].
    split; [done|]. split; [done|]. intros. apply lookup_empty.
Qed.

(** ** Joining *)

(** C7: a join-room aimed at a room whose directory has reached the cap
    is answered with room-full, one aimed at an unknown room with
    room-not-found; in both cases the whole server state, and with it the
    size of every directory, is what it was. *)
Theorem join_room_refused st sid now roomId username :
  (∀ room,
     rooms st !! roomId = Some room →
     Settings.maxParticipants (Room.settings room) ≤ size (Room.participants room) →
     handle st sid now (In.join_room roomId username)
       = (st, [to_socket sid Out.room_full])
     ∧ (∀ room', rooms (handle st sid now (In.join_room roomId username)).1
                   !! roomId = Some room' →
                 size (Room.participants room') = size (Room.participants room)))
  ∧ (rooms st !! roomId = None →
     handle st sid now (In.join_room roomId username)
       = (st, [to_socket sid Out.room_not_found])).
Proof.
  split.
  - intros room Hroom Hfull.
    assert (handle st sid now (In.join_room roomId username)
            = (st, [to_socket sid Out.room_full])) as Hres.
    { cbn. unfold on_join_room. rewrite Hroom.
      apply Nat.leb_le in Hfull. by rewrite Hfull. }
    split; [done|]. rewrite Hres. cbn. intros room' Hroom'. congruence.
  - intros Hnone. cbn. unfold on_join_room. by rewrite Hnone.
Qed.

(** ** Drawing *)

Lemma may_draw_dec (room : Room.t) (sid : string) :
  may_draw room sid ∨ ¬ may_draw room sid.
Proof.
  unfold may_draw.
  destruct (decide (Room.state room = ACTIVE)) as [Hactive|Hno]; [|tauto].
  destruct (Room.participants room !! sid) as [participant|] eqn:Hp.
  - destruct (decide (Participant.role participant = Host)) as [Hhost|Hpart].
    + left. eauto.
    + destruct (Settings.participantsCanDraw (Room.settings room)) eqn:Hflag.
      * left. eauto.
      * right. intros (_ & p & [= <-] & [|]); congruence.
  - right. intros (_ & p & Hsome & _). congruence.
Qed.

Lemma drawing_denied st sid now data socket room :
  bound_to st sid socket room → ¬ may_draw room sid →
  handle st sid now (In.drawing data) = (st, []).
Proof.
  intros Hbound Hno. enter_handler Hbound.
  destruct (decide (Room.state room = ACTIVE)) as [Hactive|]; [|done].
  destruct (Room.participants room !! sid) as [participant|] eqn:Hp; [|done].
  assert (bool_decide (Participant.role participant = Host)
          || Settings.participantsCanDraw (Room.settings room) = false) as ->;
    [|done].
  apply not_true_is_false. rewrite orb_true_iff, bool_decide_eq_true.
  intros Hgate. apply Hno. split; [done|]. by exists participant.
Qed.

Lemma drawing_unroomed st sid now data socket :
  sockets st !! sid = Some socket →
  rooms st !! Socket.roomId socket = None →
  handle st sid now (In.drawing data) = (st, []).
Proof.
  intros Hs Hr. cbn. unfold on_drawing. rewrite Hs, Hr.
  by destruct (negb _).
Qed.

Lemma drawing_allowed st sid now data socket room :
  bound_to st sid socket room → may_draw room sid →
  let record := attributed socket sid now data in
  ∃ room',
    handle st sid now (In.drawing data)
      = (set_room (Socket.roomId socket) room' st,
         [to_others (Socket.roomId socket) sid (Out.drawing record)])
    ∧ Room.participants room' = Room.participants room
    ∧ Room.state room' = Room.state room
    ∧ (Stroke.type data = "draw" →
         Room.drawings room' = Room.drawings room ++ [record]
         ∧ ∀ key,
             slide_log room' key =
               if decide (Stroke.slideIndex data ≠ None
                          ∧ key = slideKey (Stroke.slideIndex data))
               then slide_log room key ++ [record]
               else slide_log room key)
    ∧ (Stroke.type data ≠ "draw" →
         Room.drawings room' = Room.drawings room
         ∧ ∀ key, slide_log room' key = slide_log room key).
Proof.
  intros Hbound (Hactive & participant & Hp & Hgate) record.
  enter_handler Hbound.
  rewrite decide_True by done. rewrite Hp.
  assert (bool_decide (Participant.role participant = Host)
          || Settings.participantsCanDraw (Room.settings room) = true) as ->.
  { rewrite orb_true_iff, bool_decide_eq_true. tauto. }
  cbn [negb]. eexists. split; [reflexivity|].
  split; [done|]. split; [done|].
  fold (attributed socket sid now data). fold record.
  split.
  - intros Hdraw.
    destruct (decide (Stroke.type data = "draw")) as [_|]; [|done].
    split; [done|]. intros key. unfold slide_log.
    cbn [Room.slideDrawings Room.with_drawings Room.with_slideDrawings].
    destruct (Stroke.slideIndex data) as [index|] eqn:Hindex.
    + destruct (decide (key = slideKey (Some index))) as [->|Hne].
      * rewrite (decide_True (P := _ ∧ _)) by (by split).
        rewrite lookup_insert_eq.
        destruct (Room.slideDrawings room !! slideKey (Some index)) eqn:Hlog.
        -- by rewrite Hlog.
        -- by rewrite lookup_insert_eq.
      * rewrite (decide_False (P := _ ∧ _)) by tauto.
        rewrite lookup_insert_ne by done.
        destruct (Room.slideDrawings room !! slideKey (Some index)); [done|].
        by rewrite lookup_insert_ne.
    + rewrite (decide_False (P := _ ∧ _)); [done|]. intros [? _]. done.
  - intros Hother.
    destruct (decide (Stroke.type data = "draw")) as [|_]; [done|].
    split; [done|]. intros key. unfold slide_log.
    cbn [Room.slideDrawings Room.with_drawings Room.with_slideDrawings].
    destruct (Stroke.slideIndex data) as [index|]; [|done].
    destruct (Room.slideDrawings room !! slideKey (Some index)) eqn:Hlog; [done|].
    destruct (decide (key = slideKey (Some index))) as [->|Hne].
    + by rewrite lookup_insert_eq, Hlog.
    + by rewrite lookup_insert_ne.
Qed.

Lemma app_singleton_neq {A} (l : list A) (x : A) : l ++ [x] ≠ l.
Proof.
  intros Heq. apply (f_equal length) in Heq.
  rewrite length_app in Heq. cbn in Heq. lia.
Qed.

(** C3: a drawing event from a bound sender is appended to the flat
    drawing log exactly when the sender's room exists, is active, the
    sender is a directory member who is host or participantsCanDraw is
    on, and the event's kind is "draw"; it is then also appended to the
    log of its slide when it names one.  An event that passes the state
    and permission gates is relayed to everyone but the sender whatever
    its kind, and one of another kind (start, stop) adds no record to any
    log.  A denied or out-of-state event changes nothing and emits
    nothing. *)
Theorem drawing_persistence st sid now data socket :
  sockets st !! sid = Some socket →
  truthy (Socket.roomId socket) = true →
  let roomId := Socket.roomId socket in
  let res := handle st sid now (In.drawing data) in
  let record := attributed socket sid now data in
  let accepted := ∃ room, rooms st !! roomId = Some room ∧ may_draw room sid in
  (appended_to_log st res.1 roomId record
     ↔ accepted ∧ Stroke.type data = "draw")
  ∧ (∀ room, rooms st !! roomId = Some room → may_draw room sid →
       res.2 = [to_others roomId sid (Out.drawing record)]
       ∧ ∃ room', rooms res.1 !! roomId = Some room'
           ∧ (Stroke.type data = "draw" →
                Room.drawings room' = Room.drawings room ++ [record]
                ∧ (Stroke.slideIndex data ≠ None →
                     slide_log room' (slideKey (Stroke.slideIndex data))
                     = slide_log room (slideKey (Stroke.slideIndex data))
                         ++ [record]))
           ∧ (Stroke.type data ≠ "draw" →
                Room.drawings room' = Room.drawings room
                ∧ ∀ key, slide_log room' key = slide_log room key))
  ∧ (¬ accepted → res = (st, [])).
Proof.
  intros Hs Ht roomId res record accepted.
  assert (∀ room, rooms st !! roomId = Some room → bound_to st sid socket room)
    as Hbound by (intros room Hr; by repeat split).
  assert (¬ accepted → res = (st, [])) as Hdenied.
  { intros Hno. subst res.
    destruct (rooms st !! roomId) as [room|] eqn:Hr.
    - apply (drawing_denied _ _ _ _ socket room); [by apply Hbound|].
      intros Hmay. apply Hno. by exists room.
    - by apply (drawing_unroomed _ _ _ _ socket). }
  assert (∀ room, rooms st !! roomId = Some room → may_draw room sid →
       res.2 = [to_others roomId sid (Out.drawing record)]
       ∧ ∃ room', rooms res.1 !! roomId = Some room'
           ∧ (Stroke.type data = "draw" →
                Room.drawings room' = Room.drawings room ++ [record]
                ∧ (Stroke.slideIndex data ≠ None →
                     slide_log room' (slideKey (Stroke.slideIndex data))
                     = slide_log room (slideKey (Stroke.slideIndex data))
                         ++ [record]))
           ∧ (Stroke.type data ≠ "draw" →
                Room.drawings room' = Room.drawings room
                ∧ ∀ key, slide_log room' key = slide_log room key)) as Hallowed.
  { intros room Hr Hmay.
    destruct (drawing_allowed st sid now data socket room (Hbound _ Hr) Hmay)
      as (room' & Hres & _ & _ & Hdraw & Hother).
    subst res. rewrite Hres. cbn [fst snd]. split; [done|].
    exists room'. split; [apply lookup_insert_eq|]. split; [|done].
    intros Htype. destruct (Hdraw Htype) as [Hflat Hslides].
    split; [done|]. intros Hindex. rewrite Hslides.
    by rewrite decide_True. }
  split; [|by split].
  split.
  - intros (room & room' & Hr & Hr' & Hpush).
    destruct (may_draw_dec room sid) as [Hmay|Hno].
    + split; [by exists room|].
      destruct (decide (Stroke.type data = "draw")) as [|Hother]; [done|].
      destruct (Hallowed room Hr Hmay) as (_ & room'' & Hr'' & _ & Hkeep).
      assert (room'' = room') as -> by congruence.
      destruct (Hkeep Hother) as [Hflat _]. rewrite Hflat in Hpush.
      symmetry in Hpush. by apply app_singleton_neq in Hpush.
    + assert (¬ accepted) as Hnot.
      { intros (room0 & Hr0 & Hmay0). apply Hno. congruence. }
      rewrite (Hdenied Hnot) in Hr'. cbn in Hr'.
      assert (room' = room) as -> by congruence.
      symmetry in Hpush. by apply app_singleton_neq in Hpush.
  - intros [(room & Hr & Hmay) Htype].
    destruct (Hallowed room Hr Hmay) as (_ & room' & Hr' & Hdraw & _).
    exists room, room'. split; [done|]. split; [done|]. by apply Hdraw.
Qed.

(** ** Directory invariants *)

Lemma same_directory_refl st : same_directory st st.
Proof. repeat split. intros k room Hroom. by exists room. Qed.

Lemma same_directory_set_room st k room room' :
  rooms st !! k = Some room →
  Room.participants room' = Room.participants room →
  Room.host room' = Room.host room →
  same_directory st (set_room k room' st).
Proof.
  intros Hroom Hp Hh. repeat split. cbn. intros k' r' Hr'.
  apply lookup_insert_Some in Hr' as [[<- <-]|[Hne Hr']]; eauto.
Qed.

Lemma artifact_step_same_directory st i :
  artifact_input i = true → same_directory st (step st i).1.
Proof.
  destruct i as [sid now e|now]; [destruct e|]; try discriminate; intros _; cbn.
  all: try (unfold on_start_session, on_drawing, on_chat_message, on_file_upload_started,
    on_background_image_set, on_background_cleared, on_file_shared, on_presentation_shared,
    on_slide_changed, on_slide_drawings_cleared, on_text_added, on_clear_canvas,
    on_toggle_participant_drawing, on_toggle_participant_chat;
    repeat case_match; cbn [fst];
    try apply same_directory_refl;
    by (eapply same_directory_set_room; [eassumption|done..])).
  repeat split. cbn. intros k r' Hr'.
  apply map_lookup_filter_Some in Hr' as [Hr' _]. eauto.
Qed.

Lemma leaveRoom_tables st sid :
  connectedUsers (leaveRoom st sid).1 = delete sid (connectedUsers st)
  ∧ sockets (leaveRoom st sid).1 = sockets st.
Proof.
  unfold leaveRoom. destruct (connectedUsers st !! sid) eqn:Hu; cbn; [done|].
  split; [|done]. symmetry. by apply delete_id.
Qed.

Lemma leaveRoom_rooms st sid k room' :
  rooms (leaveRoom st sid).1 !! k = Some room' →
  (rooms st !! k = Some room'
   ∧ ∀ u, connectedUsers st !! sid = Some u → UserInfo.roomId u ≠ k)
  ∨ (∃ u room, connectedUsers st !! sid = Some u
       ∧ UserInfo.roomId u = k
       ∧ rooms st !! k = Some room
       ∧ room' = Room.with_participants (delete sid (Room.participants room)) room
       ∧ socket_role st sid ≠ Some Host).
Proof.
  unfold leaveRoom.
  destruct (connectedUsers st !! sid) as [u|] eqn:Hu; cbn; [|intros; left; by split].
  destruct (rooms st !! UserInfo.roomId u) as [room|] eqn:Hroom; cbn.
  - unfold leave_bound_room.
    destruct (decide (socket_role st sid = Some Host)) as [Hhost|Hhost];
      destruct (decide (size (delete sid (Room.participants room)) = 0));
      cbn; intros Hk.
    + apply lookup_delete_Some in Hk as [Hne Hk].
      apply lookup_delete_Some in Hk as [_ Hk].
      left. split; [done|]. by intros ? [= <-].
    + apply lookup_delete_Some in Hk as [Hne Hk].
      left. split; [done|]. by intros ? [= <-].
    + apply lookup_delete_Some in Hk as [Hne Hk].
      rewrite lookup_insert_ne in Hk by done.
      left. split; [done|]. by intros ? [= <-].
    + apply lookup_insert_Some in Hk as [[<- <-]|[Hne Hk]].
      * right. by exists u, room.
      * left. split; [done|]. by intros ? [= <-].
  - intros Hk. left. split; [done|]. intros ? [= <-] Heq. congruence.
Qed.

Lemma directory_shrinks_inv st st' :
  directory_shrinks st st' → directory_inv st → directory_inv st'.
Proof.
  intros (Hsock & Hcu & Hrooms) [Hready Hown Hcreator Hkeys Hbind]. split.
  - intros k room' sid p Hk Hp Hrole.
    destruct (Hrooms _ _ Hk) as (room & Hroom & _ & Hsub). eauto.
  - intros k room' sid p socket Hk Hp Hrole Hs Hid.
    destruct (Hrooms _ _ Hk) as (room & Hroom & _ & Hsub). eauto.
  - intros k room' sid p Hk Hp Hrole.
    destruct (Hrooms _ _ Hk) as (room & Hroom & -> & Hsub). eauto.
  - intros k room' Hk.
    destruct (Hrooms _ _ Hk) as (room & Hroom & _). eauto.
  - intros sid u Hu. destruct (Hcu _ _ Hu) as [Hu' ->]. eauto.
Qed.

Lemma same_directory_shrinks st st' :
  same_directory st st' → directory_shrinks st st'.
Proof.
  intros (Hs & Hcu & Hrooms). split; [|split].
  - by rewrite Hs.
  - rewrite Hs, Hcu. by intros.
  - intros k room' Hk. destruct (Hrooms _ _ Hk) as (room & ? & Hp & ?).
    exists room. rewrite Hp. eauto.
Qed.

Lemma leaveRoom_shrinks st sid : directory_shrinks st (leaveRoom st sid).1.
Proof.
  destruct (leaveRoom_tables st sid) as [Hcu Hs]. split; [|split].
  - by rewrite Hs.
  - rewrite Hs, Hcu. intros sid' u Hu.
    by apply lookup_delete_Some in Hu as [_ Hu].
  - intros k room' Hk.
    apply leaveRoom_rooms in Hk as [[Hk _]|(u & room & _ & _ & Hroom & -> & _)].
    + by exists room'.
    + exists room. split; [done|]. split; [done|]. cbn.
      intros sid' p Hp. by apply lookup_delete_Some in Hp as [_ Hp].
Qed.

Lemma on_disconnect_shrinks st sid : directory_shrinks st (on_disconnect st sid).1.
Proof.
  destruct (leaveRoom_shrinks st sid) as (Hs & Hcu & Hrooms).
  destruct (leaveRoom_tables st sid) as [Htable Hsockets].
  unfold on_disconnect. cbn. split; [|split]; cbn.
  - intros sid' socket Hsid'. apply lookup_delete_Some in Hsid' as [_ Hsid'].
    by apply Hs.
  - intros sid' u Hu. destruct (Hcu _ _ Hu) as [Hu' Heq]. split; [done|].
    rewrite Htable in Hu. apply lookup_delete_Some in Hu as [Hne _].
    rewrite lookup_delete_ne by done. by rewrite Hsockets.
  - done.
Qed.

Lemma directory_shrinks_refl st : directory_shrinks st st.
Proof. apply same_directory_shrinks, same_directory_refl. Qed.

Lemma on_kick_participant_shrinks st sid target :
  directory_shrinks st (on_kick_participant st sid target).1.
Proof.
  unfold on_kick_participant. repeat case_match; cbn [fst];
    try apply directory_shrinks_refl.
  apply on_disconnect_shrinks.
Qed.

Lemma on_create_room_cases st sid now roomId username :
  (on_create_room st sid now roomId username).1 = st
  ∨ (truthy roomId = true ∧ rooms st !! roomId = None
     ∧ (on_create_room st sid now roomId username).1 =
         Server
           (<[roomId :=
                Room.mk roomId sid LOBBY
                  {[ sid := Participant.mk sid username Host true now ]}
                  [] None [] (Some 0%Z) ∅ Settings.initial now]> (rooms st))
           (<[sid := UserInfo.mk roomId username Host]> (connectedUsers st))
           (<[sid := Socket.mk roomId username Host]> (sockets st))).
Proof.
  unfold on_create_room.
  destruct (truthy roomId); cbn; [|by left].
  destruct (negb (truthy username)); cbn; [by left|].
  destruct (rooms st !! roomId); cbn; [by left|]. by right.
Qed.

Lemma on_join_room_cases st sid now roomId username :
  (on_join_room st sid now roomId username).1 = st
  ∨ (∃ room, rooms st !! roomId = Some room
     ∧ (on_join_room st sid now roomId username).1 =
         Server
           (<[roomId :=
                Room.with_participants
                  (<[sid := Participant.mk sid username Participant false now]>
                     (Room.participants room)) room]> (rooms st))
           (<[sid := UserInfo.mk roomId username Participant]> (connectedUsers st))
           (<[sid := Socket.mk roomId username Participant]> (sockets st))).
Proof.
  unfold on_join_room.
  destruct (rooms st !! roomId) as [room|]; cbn; [|by left].
  destruct (_ <=? _); cbn; [by left|]. right. by exists room.
Qed.

Lemma on_toggle_ready_cases st sid ready :
  (on_toggle_ready st sid ready).1 = st
  ∨ (∃ socket room p, sockets st !! sid = Some socket
     ∧ Socket.role socket = Participant
     ∧ rooms st !! Socket.roomId socket = Some room
     ∧ Room.participants room !! sid = Some p
     ∧ (on_toggle_ready st sid ready).1 =
         set_room (Socket.roomId socket)
           (Room.with_participants
              (<[sid := Participant.with_ready ready p]> (Room.participants room))
              room) st).
Proof.
  unfold on_toggle_ready.
  destruct (sockets st !! sid) as [socket|]; cbn; [|by left].
  destruct (truthy (Socket.roomId socket)); cbn; [|by left].
  destruct (bool_decide (Socket.role socket = Participant)) eqn:Hrole; cbn;
    [|by left].
  apply bool_decide_eq_true in Hrole.
  destruct (rooms st !! Socket.roomId socket) as [room|] eqn:Hroom; cbn; [|by left].
  destruct (Room.participants room !! sid) as [p|] eqn:Hp; cbn; [|by left].
  right. by exists socket, room, p.
Qed.

Lemma on_create_room_inv st sid now roomId username :
  directory_inv st → directory_inv (on_create_room st sid now roomId username).1.
Proof.
  intros Hinv.
  destruct (on_create_room_cases st sid now roomId username)
    as [->|(Htruthy & Hfree & ->)]; [done|].
  destruct Hinv as [Hready Hown Hcreator Hkeys Hbind]. split.
  - intros k room sid' p Hk Hp Hrole. cbn in Hk.
    apply lookup_insert_Some in Hk as [[<- <-]|[Hne Hk]]; [|eauto].
    cbn in Hp. by apply lookup_singleton_Some in Hp as [_ <-].
  - intros k room sid' p socket Hk Hp Hrole Hs Hid. cbn in Hk, Hs.
    apply lookup_insert_Some in Hs as [[<- <-]|[Hne Hs]]; [done|].
    apply lookup_insert_Some in Hk as [[<- <-]|[Hne' Hk]]; [|eauto].
    cbn in Hp. by apply lookup_singleton_Some in Hp as [? _].
  - intros k room sid' p Hk Hp Hrole. cbn in Hk.
    apply lookup_insert_Some in Hk as [[<- <-]|[Hne Hk]]; [|eauto].
    cbn in Hp. by apply lookup_singleton_Some in Hp as [<- _].
  - intros k room Hk. cbn in Hk.
    apply lookup_insert_Some in Hk as [[<- <-]|[Hne Hk]]; eauto.
  - intros sid' u Hu. cbn in Hu. cbn.
    apply lookup_insert_Some in Hu as [[<- <-]|[Hne Hu]].
    + rewrite lookup_insert_eq. by eexists.
    + rewrite lookup_insert_ne by done. eauto.
Qed.

Lemma on_join_room_inv st sid now roomId username :
  directory_inv st → directory_inv (on_join_room st sid now roomId username).1.
Proof.
  intros Hinv.
  destruct (on_join_room_cases st sid now roomId username)
    as [->|(room & Hroom & ->)]; [done|].
  destruct Hinv as [Hready Hown Hcreator Hkeys Hbind]. split.
  - intros k room' sid' p Hk Hp Hrole. cbn in Hk.
    apply lookup_insert_Some in Hk as [[<- <-]|[Hne Hk]]; [|eauto].
    cbn in Hp. apply lookup_insert_Some in Hp as [[<- <-]|[Hne Hp]]; [done|eauto].
  - intros k room' sid' p socket Hk Hp Hrole Hs Hid. cbn in Hk, Hs.
    apply lookup_insert_Some in Hs as [[<- <-]|[Hne Hs]].
    + cbn in Hid. subst k. rewrite lookup_insert_eq in Hk.
      injection Hk as <-. cbn in Hp. rewrite lookup_insert_eq in Hp.
      by injection Hp as <-.
    + apply lookup_insert_Some in Hk as [[<- <-]|[Hne' Hk]]; [|eauto].
      cbn in Hp. rewrite lookup_insert_ne in Hp by done. eauto.
  - intros k room' sid' p Hk Hp Hrole. cbn in Hk.
    apply lookup_insert_Some in Hk as [[<- <-]|[Hne Hk]]; [|eauto].
    cbn in Hp. apply lookup_insert_Some in Hp as [[<- <-]|[Hne Hp]]; [done|].
    cbn. eauto.
  - intros k room' Hk. cbn in Hk.
    apply lookup_insert_Some in Hk as [[<- <-]|[Hne Hk]]; eauto.
  - intros sid' u Hu. cbn in Hu. cbn.
    apply lookup_insert_Some in Hu as [[<- <-]|[Hne Hu]].
    + rewrite lookup_insert_eq. by eexists.
    + rewrite lookup_insert_ne by done. eauto.
Qed.

Lemma on_toggle_ready_inv st sid ready :
  directory_inv st → directory_inv (on_toggle_ready st sid ready).1.
Proof.
  intros Hinv.
  destruct (on_toggle_ready_cases st sid ready)
    as [->|(socket & room & p & Hs & Hrole & Hroom & Hp & ->)]; [done|].
  destruct Hinv as [Hready Hown Hcreator Hkeys Hbind].
  assert (Participant.role p ≠ Host) as Hnot.
  { intros Hhost.
    pose proof (Hown _ _ _ _ _ Hroom Hp Hhost Hs eq_refl). congruence. }
  split.
  - intros k room' sid' p' Hk Hp' Hrole'. cbn in Hk.
    apply lookup_insert_Some in Hk as [[<- <-]|[Hne Hk]]; [|eauto].
    cbn in Hp'. apply lookup_insert_Some in Hp' as [[<- <-]|[Hne Hp']]; [done|eauto].
  - intros k room' sid' p' socket' Hk Hp' Hrole' Hs' Hid. cbn in Hk, Hs'.
    apply lookup_insert_Some in Hk as [[<- <-]|[Hne Hk]]; [|eauto].
    cbn in Hp'. apply lookup_insert_Some in Hp' as [[<- <-]|[Hne Hp']]; [done|eauto].
  - intros k room' sid' p' Hk Hp' Hrole'. cbn in Hk.
    apply lookup_insert_Some in Hk as [[<- <-]|[Hne Hk]]; [|eauto].
    cbn in Hp'. apply lookup_insert_Some in Hp' as [[<- <-]|[Hne Hp']]; [done|].
    cbn. eauto.
  - intros k room' Hk. cbn in Hk.
    apply lookup_insert_Some in Hk as [[<- <-]|[Hne Hk]]; eauto.
  - done.
Qed.

Lemma initial_directory_inv : directory_inv initial.
Proof. split; intros ?; intros; by rewrite ?lookup_empty in *. Qed.

Lemma step_directory_inv st i : directory_inv st → directory_inv (step st i).1.
Proof.
  intros Hinv.
  destruct (artifact_input i) eqn:Hclass.
  { eapply directory_shrinks_inv; [|done].
    by apply same_directory_shrinks, artifact_step_same_directory. }
  destruct i as [sid now e|now]; [destruct e|]; try discriminate; cbn.
  - by apply on_create_room_inv.
  - by apply on_join_room_inv.
  - by apply on_toggle_ready_inv.
  - eapply directory_shrinks_inv; [apply on_kick_participant_shrinks|done].
  - eapply directory_shrinks_inv; [apply leaveRoom_shrinks|done].
  - eapply directory_shrinks_inv; [apply on_disconnect_shrinks|done].
Qed.

Lemma reachable_by_directory_inv ok st : reachable_by ok st → directory_inv st.
Proof.
  induction 1 as [|st i _ IH _]; [apply initial_directory_inv|].
  by apply step_directory_inv.
Qed.

Lemma elem_of_hosts room sid :
  sid ∈ hosts room ↔
  ∃ p, Room.participants room !! sid = Some p ∧ Participant.role p = Host.
Proof.
  unfold hosts. rewrite elem_of_dom. split.
  - intros [p Hp]. apply map_lookup_filter_Some in Hp as [Hp Hrole]. eauto.
  - intros (p & Hp & Hrole). exists p. by apply map_lookup_filter_Some.
Qed.

Lemma hosts_at_most_creator st k room :
  directory_inv st → rooms st !! k = Some room → hosts room ⊆ {[ Room.host room ]}.
Proof.
  intros Hinv Hroom sid Hsid. apply elem_of_hosts in Hsid as (p & Hp & Hrole).
  apply elem_of_singleton. by eapply (inv_creator _ Hinv).
Qed.

Lemma same_directory_hosted st st' : same_directory st st' → hosted st → hosted st'.
Proof.
  intros (Hs & Hcu & Hrooms) Hhosted k room' Hk.
  destruct (Hrooms _ _ Hk) as (room & Hroom & Hp & Hh).
  destruct (Hhosted _ _ Hroom) as [(p & Hseat & Hrole) (u & Hu & Hbinding)].
  split.
  - exists p. rewrite Hp, Hh. done.
  - exists u. rewrite Hcu, Hh. done.
Qed.

Lemma leaveRoom_hosted st sid :
  directory_inv st → hosted st → hosted (leaveRoom st sid).1.
Proof.
  intros Hinv Hhosted k room' Hk.
  destruct (leaveRoom_tables st sid) as [-> _].
  apply leaveRoom_rooms in Hk
    as [[Hk Hother]|(u & room & Hu & Hid & Hroom & -> & Hrole)].
  - destruct (Hhosted _ _ Hk) as [Hseat (u & Hu & Hid & Hrole)].
    split; [done|]. exists u. split; [|done].
    rewrite lookup_delete_ne; [done|]. intros ->. by apply (Hother u).
  - destruct (Hhosted _ _ Hroom) as [(p & Hp & Hprole) (u' & Hu' & Hid' & Hrole')].
    assert (Room.host room ≠ sid) as Hne.
    { intros Heq. rewrite Heq in Hu'. assert (u' = u) as -> by congruence.
      destruct (inv_bindings _ Hinv _ _ Hu) as (socket & Hs & _ & Hsrole).
      apply Hrole. unfold socket_role. rewrite Hs. cbn. congruence. }
    cbn. split.
    + exists p. by rewrite lookup_delete_ne.
    + exists u'. by rewrite lookup_delete_ne.
Qed.

Lemma on_disconnect_hosted st sid :
  directory_inv st → hosted st → hosted (on_disconnect st sid).1.
Proof. intros Hinv Hhosted. by apply (leaveRoom_hosted st sid). Qed.

Lemma step_hosted st i :
  directory_inv st → binds_once st i → hosted st → hosted (step st i).1.
Proof.
  intros Hinv Hfresh Hhosted.
  destruct (artifact_input i) eqn:Hclass.
  { eapply same_directory_hosted; [|done].
    by apply artifact_step_same_directory. }
  assert (∀ k room, rooms st !! k = Some room →
            is_Some (connectedUsers st !! Room.host room)) as Hbound.
  { intros k room Hroom. destruct (Hhosted _ _ Hroom) as [_ (u & -> & _)]. eauto. }
  destruct i as [sid now e|now]; [destruct e|]; try discriminate;
    cbn [step handle].
  - destruct (on_create_room_cases st sid now roomId username)
      as [->|(Htruthy & Hfree & ->)]; [done|].
    cbn in Hfresh. intros k room Hk. cbn in Hk. cbn [connectedUsers].
    apply lookup_insert_Some in Hk as [[<- <-]|[Hne Hk]].
    + cbn. rewrite lookup_singleton_eq, lookup_insert_eq. split; by eexists.
    + destruct (Hhosted _ _ Hk) as [Hseat Hu]. split; [done|].
      rewrite lookup_insert_ne; [done|]. intros ->.
      destruct (Hbound _ _ Hk) as [? ?]. congruence.
  - destruct (on_join_room_cases st sid now roomId username)
      as [->|(room & Hroom & ->)]; [done|].
    cbn in Hfresh. intros k room' Hk. cbn in Hk. cbn [connectedUsers].
    assert (∀ r, rooms st !! k = Some r → Room.host r ≠ sid) as Hne.
    { intros r Hr <-. destruct (Hbound _ _ Hr) as [? ?]. congruence. }
    apply lookup_insert_Some in Hk as [[<- <-]|[Hne' Hk]].
    + destruct (Hhosted _ _ Hroom) as [Hseat Hu]. cbn.
      rewrite !lookup_insert_ne by (by apply not_eq_sym, (Hne room)). done.
    + destruct (Hhosted _ _ Hk) as [Hseat Hu].
      rewrite lookup_insert_ne by (by apply not_eq_sym, (Hne room')). done.
  - destruct (on_toggle_ready_cases st sid ready)
      as [->|(socket & room & p & Hs & Hrole & Hroom & Hp & ->)]; [done|].
    intros k room' Hk. cbn in Hk. cbn [connectedUsers set_room].
    apply lookup_insert_Some in Hk as [[<- <-]|[Hne' Hk]]; [|by apply Hhosted].
    destruct (Hhosted _ _ Hroom) as [(p' & Hp' & Hprole) Hu].
    split; [|done]. cbn.
    destruct (decide (Room.host room = sid)) as [Heq|Hne].
    + rewrite Heq, lookup_insert_eq. rewrite Heq in Hp'.
      assert (p' = p) as -> by congruence. by eexists.
    + rewrite lookup_insert_ne by done. eauto.
  - unfold on_kick_participant. repeat case_match; cbn [fst]; try done.
    by apply on_disconnect_hosted.
  - by apply leaveRoom_hosted.
  - by apply on_disconnect_hosted.
Qed.

Lemma reachable_by_hosted st : reachable_by binds_once st → hosted st.
Proof.
  induction 1 as [|st i Hreach IH Hok].
  - intros k room Hk. cbn in Hk. by rewrite lookup_empty in Hk.
  - apply step_hosted; [by eapply reachable_by_directory_inv|done..].
Qed.

(** ** Traces *)

Lemma reachable_by_weaken (ok ok' : server → input → Prop) st :
  (∀ s i, ok s i → ok' s i) → reachable_by ok st → reachable_by ok' st.
Proof.
  intros Himpl. induction 1 as [|s i _ IH Hok]; [constructor|].
  constructor; [done|]. by apply Himpl.
Qed.

Lemma reachable_by_reachable ok st : reachable_by ok st → reachable st.
Proof. by apply reachable_by_weaken. Qed.

Lemma reachable_by_run ok st inputs :
  reachable_by ok st → guarded ok st inputs → reachable_by ok (run st inputs).
Proof.
  revert st. induction inputs as [|i rest IH]; intros st Hreach Hguard; [done|].
  destruct Hguard as [Hok Hrest]. cbn. apply IH; [|done]. by constructor.
Qed.

Lemma reachable_run inputs : reachable (run initial inputs).
Proof.
  apply reachable_by_run; [constructor|].
  generalize initial. induction inputs as [|i rest IH]; intros st; cbn; auto.
Qed.

(** ** Hosts *)

Lemma host_leaves st sid now e u room :
  e = In.leave_room ∨ e = In.disconnect →
  connectedUsers st !! sid = Some u →
  socket_role st sid = Some Host →
  rooms st !! UserInfo.roomId u = Some room →
  rooms (handle st sid now e).1 !! UserInfo.roomId u = None
  ∧ (handle st sid now e).2
    = [to_room (UserInfo.roomId u) (Out.room_ended "Host left the room")].
Proof.
  intros He Hu Hrole Hroom.
  assert (rooms (leaveRoom st sid).1 !! UserInfo.roomId u = None
          ∧ (leaveRoom st sid).2
            = [to_room (UserInfo.roomId u) (Out.room_ended "Host left the room")])
    as Hleave.
  { unfold leaveRoom. rewrite Hu, Hroom. unfold leave_bound_room.
    destruct (decide (socket_role st sid = Some Host)); [|done].
    cbn. split; [|done]. case_decide; by rewrite ?lookup_delete_eq. }
  destruct He as [-> | ->]; cbn; [done|].
  unfold on_disconnect. by cbn.
Qed.

Lemma size_hosts_le st k room :
  directory_inv st → rooms st !! k = Some room → size (hosts room) ≤ 1.
Proof.
  intros Hinv Hroom.
  rewrite <- (size_singleton (C := gset string) (Room.host room)).
  apply subseteq_size. by eapply hosts_at_most_creator.
Qed.

Lemma same_directory_seated st st' :
  same_directory st st' →
  seated_host st ∧ creator_binding st → seated_host st' ∧ creator_binding st'.
Proof.
  intros (_ & Hcu & Hrooms) [Hseated Hbinding]. split.
  - intros k room' Hk. destruct (Hrooms _ _ Hk) as (room & Hroom & Hp & Hh).
    destruct (Hseated _ _ Hroom) as (p & Hseat & Hrole).
    exists p. by rewrite Hp, Hh.
  - intros k room' u Hk Hu Hid.
    destruct (Hrooms _ _ Hk) as (room & Hroom & _ & Hh).
    rewrite Hcu, Hh in Hu. by eapply Hbinding.
Qed.

Lemma leaveRoom_seated st sid :
  directory_inv st →
  seated_host st ∧ creator_binding st →
  seated_host (leaveRoom st sid).1 ∧ creator_binding (leaveRoom st sid).1.
Proof.
  intros Hinv [Hseated Hbinding].
  destruct (leaveRoom_tables st sid) as [Hcu _]. split.
  - intros k room' Hk.
    apply leaveRoom_rooms in Hk
      as [[Hk _]|(u & room & Hu & Hid & Hroom & -> & Hrole)]; [by eapply Hseated|].
    destruct (Hseated _ _ Hroom) as (p & Hp & Hprole).
    assert (Room.host room ≠ sid) as Hne.
    { intros Heq. rewrite <- Heq in Hu.
      pose proof (Hbinding _ _ _ Hroom Hu Hid) as Hhost.
      rewrite Heq in Hu.
      destruct (inv_bindings _ Hinv _ _ Hu) as (socket & Hs & _ & Hsrole).
      apply Hrole. unfold socket_role. rewrite Hs. cbn. congruence. }
    exists p. cbn. by rewrite lookup_delete_ne.
  - intros k room' u Hk Hu Hid. rewrite Hcu in Hu.
    apply lookup_delete_Some in Hu as [_ Hu].
    apply leaveRoom_rooms in Hk
      as [[Hk _]|(u' & room & _ & _ & Hroom & -> & _)]; by eapply Hbinding.
Qed.

Lemma step_seated st i :
  directory_inv st → no_self_join st i →
  seated_host st ∧ creator_binding st →
  seated_host (step st i).1 ∧ creator_binding (step st i).1.
Proof.
  intros Hinv Hguard Hseated.
  destruct (artifact_input i) eqn:Hclass.
  { eapply same_directory_seated; [|done].
    by apply artifact_step_same_directory. }
  destruct i as [sid now e|now]; [destruct e|]; try discriminate;
    cbn [step handle].
  - destruct (on_create_room_cases st sid now roomId username)
      as [->|(_ & Hfree & ->)]; [done|].
    destruct Hseated as [Hseated Hbinding]. split.
    + intros k room Hk. cbn in Hk.
      apply lookup_insert_Some in Hk as [[<- <-]|[Hne Hk]]; [|by eapply Hseated].
      cbn. rewrite lookup_singleton_eq. by eexists.
    + intros k room u Hk Hu Hid. cbn in Hk, Hu.
      apply lookup_insert_Some in Hu as [[Hsid <-]|[Hne Hu]]; [done|].
      apply lookup_insert_Some in Hk as [[<- <-]|[Hne' Hk]]; [done|].
      by eapply Hbinding.
  - destruct (on_join_room_cases st sid now roomId username)
      as [->|(room & Hroom & ->)]; [done|].
    cbn in Hguard. pose proof (Hguard _ Hroom) as Hother.
    destruct Hseated as [Hseated Hbinding]. split.
    + intros k room' Hk. cbn in Hk.
      apply lookup_insert_Some in Hk as [[<- <-]|[Hne Hk]]; [|by eapply Hseated].
      destruct (Hseated _ _ Hroom) as (p & Hp & Hrole).
      exists p. cbn. by rewrite lookup_insert_ne.
    + intros k room' u Hk Hu Hid. cbn in Hk, Hu.
      apply lookup_insert_Some in Hk as [[<- <-]|[Hne Hk]].
      * cbn in Hu. rewrite lookup_insert_ne in Hu by done. by eapply Hbinding.
      * apply lookup_insert_Some in Hu as [[Hsid <-]|[Hne' Hu]]; [done|].
        by eapply Hbinding.
  - destruct (on_toggle_ready_cases st sid ready)
      as [->|(socket & room & p & _ & _ & Hroom & Hp & ->)]; [done|].
    destruct Hseated as [Hseated Hbinding]. split.
    + intros k room' Hk. cbn in Hk.
      apply lookup_insert_Some in Hk as [[<- <-]|[Hne Hk]]; [|by eapply Hseated].
      destruct (Hseated _ _ Hroom) as (p' & Hp' & Hrole). cbn.
      destruct (decide (Room.host room = sid)) as [Heq|Hne].
      * rewrite Heq, lookup_insert_eq. rewrite Heq in Hp'.
        assert (p' = p) as -> by congruence. by eexists.
      * rewrite lookup_insert_ne by done. eauto.
    + intros k room' u Hk Hu Hid. cbn in Hk, Hu.
      apply lookup_insert_Some in Hk as [[<- <-]|[Hne Hk]]; by eapply Hbinding.
  - unfold on_kick_participant. repeat case_match; cbn [fst]; try done.
    by apply (leaveRoom_seated st targetUserId).
  - by apply leaveRoom_seated.
  - by apply (leaveRoom_seated st sid).
Qed.

Lemma reachable_by_seated st :
  reachable_by no_self_join st → seated_host st ∧ creator_binding st.
Proof.
  induction 1 as [|st i Hreach IH Hok].
  - split; intros k room; cbn; intros; by rewrite lookup_empty in *.
  - apply step_seated; [by eapply reachable_by_directory_inv|done..].
Qed.

Lemma hosts_exactly_seated st k room :
  directory_inv st → seated_host st → rooms st !! k = Some room →
  hosts room = {[ Room.host room ]}.
Proof.
  intros Hinv Hseated Hroom. apply set_eq. intros sid. split.
  - intros Hsid. by eapply hosts_at_most_creator.
  - intros ->%elem_of_singleton. apply elem_of_hosts. by eapply Hseated.
Qed.

(** Traces whose connections bind only once never contain a self-join. *)
Lemma binds_once_no_self_join st :
  reachable_by binds_once st → reachable_by no_self_join st.
Proof.
  induction 1 as [|st i Hreach IH Hok]; [constructor|].
  constructor; [done|].
  destruct i as [sid now e|now]; [|done]. destruct e; try done.
  cbn in *. intros room Hroom <-.
  destruct (reachable_by_hosted _ Hreach _ _ Hroom) as [_ (u & Hu & _)].
  congruence.
Qed.

(** C4 (as the handlers have it): in every reachable state a live room
    has at most one participant with role host, and that one is its
    creator; it has exactly one in every state reached by inputs in which
    no creator sends join-room for its own room.  When a connection
    whose socket role is host leaves or disconnects while the room it is
    bound to is live, the room-ended notice goes to the room and the room
    is removed from the registry in that same step. *)
Theorem single_host st :
  reachable st →
  (∀ k room, rooms st !! k = Some room →
     hosts room ⊆ {[ Room.host room ]} ∧ size (hosts room) ≤ 1)
  ∧ (reachable_by no_self_join st →
     ∀ k room, rooms st !! k = Some room →
       hosts room = {[ Room.host room ]} ∧ size (hosts room) = 1)
  ∧ (∀ sid now e u room,
       e = In.leave_room ∨ e = In.disconnect →
       connectedUsers st !! sid = Some u →
       socket_role st sid = Some Host →
       rooms st !! UserInfo.roomId u = Some room →
       rooms (handle st sid now e).1 !! UserInfo.roomId u = None
       ∧ (handle st sid now e).2
         = [to_room (UserInfo.roomId u) (Out.room_ended "Host left the room")]).
Proof.
  intros Hreach. pose proof (reachable_by_directory_inv _ _ Hreach) as Hinv.
  split; [|split].
  - intros k room Hroom. split.
    + by eapply hosts_at_most_creator.
    + by eapply size_hosts_le.
  - intros Hguard k room Hroom.
    destruct (reachable_by_seated _ Hguard) as [Hseated _].
    pose proof (hosts_exactly_seated _ _ _ Hinv Hseated Hroom) as Heq.
    split; [done|]. rewrite Heq. apply size_singleton.
  - intros sid now e u room. apply host_leaves.
Qed.

(** ** Readiness *)

Lemma on_toggle_ready_host st sid ready socket :
  sockets st !! sid = Some socket → Socket.role socket = Host →
  on_toggle_ready st sid ready = (st, []).
Proof.
  intros Hs Hrole. unfold on_toggle_ready. rewrite Hs, Hrole.
  by rewrite orb_true_r.
Qed.

(** C9: in every reachable state each directory entry with role host has
    its readiness flag set: the flag is set when create-room seats the
    host, and a toggle-ready from a sender whose role is host is dropped,
    changing nothing and emitting nothing. *)
Theorem host_always_ready st :
  reachable st →
  (∀ k room sid p, rooms st !! k = Some room →
     Room.participants room !! sid = Some p →
     Participant.role p = Host → Participant.ready p = true)
  ∧ (∀ sid now roomId username,
       truthy roomId = true → truthy username = true →
       rooms st !! roomId = None →
       ∃ room p,
         rooms (handle st sid now (In.create_room roomId username)).1 !! roomId
           = Some room
         ∧ Room.participants room !! sid = Some p
         ∧ Participant.role p = Host ∧ Participant.ready p = true)
  ∧ (∀ sid now ready socket,
       sockets st !! sid = Some socket → Socket.role socket = Host →
       handle st sid now (In.toggle_ready ready) = (st, [])).
Proof.
  intros Hreach. pose proof (reachable_by_directory_inv _ _ Hreach) as Hinv.
  split; [apply (inv_ready _ Hinv)|]. split.
  - intros sid now roomId username Hid Hname Hfree. cbn.
    unfold on_create_room. rewrite Hid, Hname, Hfree. cbn.
    eexists _, _. rewrite lookup_insert_eq. split; [done|]. cbn.
    by rewrite lookup_singleton_eq.
  - intros sid now ready socket. apply on_toggle_ready_host.
Qed.

(** ** Creating *)

(** Whatever it carries, a create-room for an id that is taken changes
    nothing; the reply depends on the display name alone. *)
Lemma create_room_collision_reply st sid now roomId username room :
  reachable st →
  rooms st !! roomId = Some room →
  handle st sid now (In.create_room roomId username)
  = (st, [to_socket sid (if truthy username then Out.room_exists
                         else Out.error "Invalid room data")]).
Proof.
  intros Hreach Hroom.
  pose proof (inv_keys _ (reachable_by_directory_inv _ _ Hreach) _ _ Hroom) as Hid.
  cbn. unfold on_create_room. rewrite Hid, Hroom. by destruct (truthy username).
Qed.

(** C6: the registry holds at most one live room per id: in every
    reachable state a create-room request (id and display name, a request
    without display name being turned down as invalid beforehand) whose
    id already maps to a live room fails with room-exists, creates no
    second room, and leaves the existing room, the registry and the
    connection tables unchanged. *)
Theorem create_room_collision st sid now roomId username room :
  reachable st →
  rooms st !! roomId = Some room →
  truthy username = true →
  handle st sid now (In.create_room roomId username)
  = (st, [to_socket sid Out.room_exists])
  ∧ rooms (handle st sid now (In.create_room roomId username)).1 !! roomId
    = Some room.
Proof.
  intros Hreach Hroom Hname.
  rewrite (create_room_collision_reply _ _ _ _ _ _ Hreach Hroom), Hname.
  by split.
Qed.

(** ** Slide index *)

Lemma same_deck_refl st : same_deck st st.
Proof. intros k room Hroom. by exists room. Qed.

Lemma same_deck_set_room st k room room' :
  rooms st !! k = Some room →
  Room.slides room' = Room.slides room →
  Room.currentSlide room' = Room.currentSlide room →
  same_deck st (set_room k room' st).
Proof.
  intros Hroom Hslides Hcurrent k' r' Hr'. cbn in Hr'.
  apply lookup_insert_Some in Hr' as [[<- <-]|[Hne Hr']]; eauto.
Qed.

Lemma leaveRoom_same_deck st sid : same_deck st (leaveRoom st sid).1.
Proof.
  intros k room' Hk.
  apply leaveRoom_rooms in Hk as [[Hk _]|(u & room & _ & _ & Hroom & -> & _)].
  - by exists room'.
  - by exists room.
Qed.

Lemma keeps_deck_same_deck st i :
  keeps_deck i = true → same_deck st (step st i).1.
Proof.
  destruct i as [sid now e|now]; [destruct e|]; try discriminate; intros _;
    cbn [step handle].
  all: try (unfold on_start_session, on_drawing, on_chat_message,
    on_file_upload_started, on_slide_drawings_cleared, on_text_added,
    on_clear_canvas, on_toggle_participant_drawing, on_toggle_participant_chat;
    repeat case_match; cbn [fst];
    try apply same_deck_refl;
    by (eapply same_deck_set_room; [eassumption|done..])).
  - destruct (on_join_room_cases st sid now roomId username)
      as [->|(room & Hroom & ->)]; [apply same_deck_refl|].
    by apply (same_deck_set_room st roomId room).
  - destruct (on_toggle_ready_cases st sid ready)
      as [->|(socket & room & p & _ & _ & Hroom & _ & ->)]; [apply same_deck_refl|].
    by apply (same_deck_set_room st _ room).
  - unfold on_kick_participant. repeat case_match; cbn [fst];
      try apply same_deck_refl. apply leaveRoom_same_deck.
  - apply leaveRoom_same_deck.
  - apply leaveRoom_same_deck.
  - intros k room' Hk. cbn in Hk.
    apply map_lookup_filter_Some in Hk as [Hk _]. by exists room'.
Qed.

Lemma same_deck_decks_ok st st' : same_deck st st' → decks_ok st → decks_ok st'.
Proof.
  intros Hsame Hok k room' Hk.
  destruct (Hsame _ _ Hk) as (room & Hroom & Hslides & Hcurrent).
  unfold slide_index_ok. rewrite Hslides, Hcurrent. by apply (Hok k).
Qed.

Lemma bound_or_ignored st sid now e :
  keeps_deck (from_socket sid now e) = false →
  (∀ roomId username, e ≠ In.create_room roomId username) →
  (handle st sid now e).1 = st ∨ ∃ socket room, bound_to st sid socket room.
Proof.
  intros Hwrites Hnot.
  destruct e; try discriminate; try (by edestruct Hnot); cbn;
    unfold on_background_image_set, on_background_cleared, on_file_shared,
      on_presentation_shared, on_slide_changed;
    (destruct (sockets st !! sid) as [socket|] eqn:Hs; [|by left]);
    (destruct (truthy (Socket.roomId socket)) eqn:Ht; [|by left]);
    (destruct (rooms st !! Socket.roomId socket) as [room|] eqn:Hr; [|by left]);
    right; by exists socket, room.
Qed.

Lemma valid_index_first (image : string) : valid_index (Some 0%Z) [image].
Proof. left. cbn. lia. Qed.

Lemma valid_index_empty : valid_index (Some 0%Z) [].
Proof. by right. Qed.

Lemma put_artifacts_decks_ok st roomId room backgroundImage slides currentSlide
    slideDrawings :
  decks_ok st → valid_index currentSlide slides →
  decks_ok (put_artifacts st roomId room backgroundImage slides currentSlide
              slideDrawings).
Proof.
  intros Hok Hvalid k room' Hk. cbn in Hk.
  apply lookup_insert_Some in Hk as [[<- <-]|[Hne Hk]]; [done|by apply (Hok k)].
Qed.

Lemma step_decks_ok st i : index_checked st i → decks_ok st → decks_ok (step st i).1.
Proof.
  intros Hchecked Hok.
  destruct (keeps_deck i) eqn:Hclass.
  { eapply same_deck_decks_ok; [|done]. by apply keeps_deck_same_deck. }
  destruct i as [sid now e|now]; [|discriminate]. cbn [step].
  destruct e; try discriminate.
  - cbn. destruct (on_create_room_cases st sid now roomId username)
      as [->|(_ & _ & ->)]; [done|].
    intros k room Hk. cbn in Hk.
    apply lookup_insert_Some in Hk as [[<- <-]|[Hne Hk]]; [|by apply (Hok k)].
    apply valid_index_empty.
  - destruct (bound_or_ignored st sid now
                (In.background_image_set imageData filename username))
      as [->|(socket & room & Hbound)]; [done..|].
    rewrite (background_image_set_outcome _ _ _ _ _ Hbound).
    apply put_artifacts_decks_ok; [done|apply valid_index_first].
  - destruct (bound_or_ignored st sid now (In.background_cleared username))
      as [->|(socket & room & Hbound)]; [done..|].
    rewrite (background_cleared_outcome _ _ _ _ _ Hbound).
    apply put_artifacts_decks_ok; [done|apply valid_index_empty].
  - destruct (bound_or_ignored st sid now (In.file_shared type data))
      as [->|(socket & room & Hbound)]; [done..|].
    destruct (decide (type = "image")) as [->|Hne].
    + rewrite (file_shared_image_outcome _ _ _ _ _ Hbound).
      apply put_artifacts_decks_ok; [done|apply valid_index_first].
    + rewrite (file_shared_other_outcome _ _ _ _ _ Hbound) by done.
      intros k room' Hk. cbn in Hk. destruct Hbound as (_ & _ & Hroom).
      apply lookup_insert_Some in Hk as [[<- <-]|[Hne' Hk]]; by eapply Hok.
  - destruct (bound_or_ignored st sid now
                (In.presentation_shared slides currentSlide filename username))
      as [->|(socket & room & Hbound)]; [done..|].
    rewrite (presentation_shared_outcome _ _ _ _ _ Hbound).
    by apply put_artifacts_decks_ok.
  - destruct (bound_or_ignored st sid now (In.slide_changed slideIndex))
      as [->|(socket & room & Hbound)]; [done..|].
    rewrite (slide_changed_outcome _ _ _ _ _ Hbound).
    apply put_artifacts_decks_ok; [done|]. by apply (Hchecked socket room).
Qed.

Lemma reachable_by_decks_ok st : reachable_by index_checked st → decks_ok st.
Proof.
  induction 1 as [|st i _ IH Hok].
  - intros k room Hk. cbn in Hk. by rewrite lookup_empty in Hk.
  - by apply step_decks_ok.
Qed.

(** C2 (as the handlers have it): the current slide index of every room
    is a valid index into its deck, or 0 on an empty deck, in every state
    reached by inputs whose slide-changed and presentation-shared events
    carry an index that is valid for the deck they address.  Room
    creation, background-image-set, background-cleared and file-shared
    keep the property on their own.  slide-changed and presentation-shared
    store the index they are sent with no range check: after them the
    property holds for the room exactly when the index sent (0 for a
    presentation sent without one) is valid for the deck. *)
Theorem slide_index_valid st :
  reachable_by index_checked st →
  (∀ k room, rooms st !! k = Some room → slide_index_ok room)
  ∧ (∀ i, (∀ sid now slides currentSlide filename username,
             i ≠ from_socket sid now
                   (In.presentation_shared slides currentSlide filename username)) →
          (∀ sid now slideIndex,
             i ≠ from_socket sid now (In.slide_changed slideIndex)) →
          ∀ k room, rooms (step st i).1 !! k = Some room → slide_index_ok room)
  ∧ (∀ sid now socket room, bound_to st sid socket room →
       (∀ slideIndex,
          ∃ room', rooms (handle st sid now (In.slide_changed slideIndex)).1
                     !! Socket.roomId socket = Some room'
            ∧ Room.currentSlide room' = slideIndex
            ∧ Room.slides room' = Room.slides room
            ∧ (slide_index_ok room'
                 ↔ valid_index slideIndex (Room.slides room)))
       ∧ (∀ slides currentSlide filename username,
          ∃ room', rooms (handle st sid now
                      (In.presentation_shared slides currentSlide filename username)).1
                     !! Socket.roomId socket = Some room'
            ∧ Room.currentSlide room' = Some (or_zero currentSlide)
            ∧ Room.slides room' = slides
            ∧ (slide_index_ok room'
                 ↔ valid_index (Some (or_zero currentSlide)) slides))).
Proof.
  intros Hreach. pose proof (reachable_by_decks_ok _ Hreach) as Hok.
  split; [done|]. split.
  - intros i Hpres Hslide. apply step_decks_ok; [|done].
    destruct i as [sid now e|now]; [|done]. destruct e; try done.
    + by edestruct Hpres.
    + by edestruct Hslide.
  - intros sid now socket room Hbound. split.
    + intros slideIndex. rewrite (slide_changed_outcome _ _ _ _ _ Hbound).
      cbn [fst]. rewrite lookup_put_artifacts. by eexists.
    + intros slides currentSlide filename username.
      rewrite (presentation_shared_outcome _ _ _ _ _ Hbound).
      cbn [fst]. rewrite lookup_put_artifacts. by eexists.
Qed.

(** ** The statements on the sample runs *)

(** A presentation sent by Bob without a slide index, during the session. *)
Lemma content_swap_resets_witness :
  bound_to session "s2" bob (room_of session "R1")
  ∧ ∃ room',
      rooms (handle session "s2" 6
               (In.presentation_shared ["p1"; "p2"] None "deck.pdf" "Bob")).1
        !! "R1" = Some room'
      ∧ Room.currentSlide room' = Some 0%Z
      ∧ Room.slideDrawings room' = ∅.
Proof.
  assert (bound_to session "s2" bob (room_of session "R1")) as Hbound
    by bound_by_evaluation.
  split; [exact Hbound|].
  destruct (content_swap_resets session "s2" 6 bob (room_of session "R1") Hbound)
    as (_ & _ & Hdeck).
  destruct (Hdeck ["p1"; "p2"] None "deck.pdf" "Bob")
    as (room' & Hroom' & _ & Hzero & _ & Hlogs & _).
  exists room'. split; [exact Hroom'|]. split; [by apply Hzero|exact Hlogs].
Defined.

(** A presentation opened on its last slide leaves the index at 2, not 0. *)
Lemma content_swap_counterexample :
  ¬ (∀ st sid now socket room e,
       bound_to st sid socket room → replaces_content e →
       ∃ room', rooms (handle st sid now e).1 !! Socket.roomId socket = Some room'
         ∧ Room.currentSlide room' = Some 0%Z
         ∧ ∀ index, slide_log room' (slideKey index) = []).
Proof.
  intros Hclaim.
  destruct (Hclaim session "s2" 6%Z bob (room_of session "R1")
              (In.presentation_shared ["p1"; "p2"; "p3"] (Some 2%Z) "deck.pdf" "Bob"))
    as (room' & Hroom' & Hcurrent & _); [bound_by_evaluation|exact I|].
  vm_compute in Hroom'. injection Hroom' as <-. discriminate Hcurrent.
Qed.

(** background-image-set leaves the per-slide logs in place: after it the
    log of slide 0 still holds the stroke drawn before. *)
Lemma background_image_set_keeps_slide_logs :
  slide_log
    (room_of (handle session "s2" 6
                (In.background_image_set "img" "a.png" "Bob")).1 "R1")
    (slideKey (Some 0%Z))
  = [Drawing.mk "draw" (Some 0%Z) "stroke-a" "s2" "Bob" Participant 4].
Proof. evaluate. Qed.

(** The presenting session was reached by in-range indices only. *)
Lemma slide_index_valid_witness : slide_index_ok (room_of presenting "R1").
Proof.
  assert (reachable_by index_checked presenting) as Hreach.
  { apply reachable_by_run; [constructor|].
    repeat split.
    - left. cbn. lia.
    - intros socket room (Hsocket & _ & Hroom).
      vm_compute in Hsocket. injection Hsocket as <-.
      vm_compute in Hroom. injection Hroom as <-.
      left. cbn. lia. }
  apply (proj1 (slide_index_valid presenting Hreach) "R1"). evaluate.
Defined.

(** Index 5 on an empty deck is reachable. *)
Lemma slide_index_counterexample :
  ¬ (∀ st, reachable st →
       ∀ k room, rooms st !! k = Some room → slide_index_ok room).
Proof.
  intros Hclaim.
  assert (slide_index_ok (room_of off_deck "R1")) as Hok.
  { apply (Hclaim off_deck (reachable_run _) "R1"). evaluate. }
  vm_compute in Hok. destruct Hok as [[_ Hlt]|[_ Hzero]]; discriminate.
Qed.

(** Bob's stroke on slide 1 is logged during the active session. *)
Lemma drawing_persistence_witness :
  appended_to_log session (handle session "s2" 6 (In.drawing stroke_c)).1 "R1"
    (attributed bob "s2" 6 stroke_c).
Proof.
  assert (sockets session !! "s2" = Some bob) as Hsocket by evaluate.
  assert (truthy (Socket.roomId bob) = true) as Htruthy by reflexivity.
  destruct (drawing_persistence session "s2" 6 stroke_c bob Hsocket Htruthy)
    as [Hiff _].
  apply Hiff. split; [|reflexivity].
  exists (room_of session "R1"). split; [evaluate|].
  split; [evaluate|]. eexists. split; [evaluate|]. right. evaluate.
Defined.

(** Both rooms have their one host although Bob is bound a second time,
    and the lobby goes when its host leaves. *)
Lemma single_host_witness :
  size (hosts (room_of rebound "R1")) = 1
  ∧ size (hosts (room_of rebound "R2")) = 1
  ∧ rooms (handle lobby "s1" 3 In.leave_room).1 !! "R1" = None.
Proof.
  assert (reachable_by no_self_join rebound) as Hguard.
  { apply reachable_by_run; [constructor|].
    split; [exact I|]. split; [|by split].
    intros room Hroom. vm_compute in Hroom. injection Hroom as <-.
    discriminate. }
  destruct (single_host rebound (reachable_run _)) as (_ & Hexact & _).
  destruct (single_host lobby (reachable_run _)) as (_ & _ & Hleave).
  split; [apply (Hexact Hguard "R1"); evaluate|].
  split; [apply (Hexact Hguard "R2"); evaluate|].
  apply (Hleave "s1" 3%Z In.leave_room (UserInfo.mk "R1" "Alice" Host)
           (room_of lobby "R1")); [by left|evaluate..].
Defined.

(** After the creator joined her own room, the room has no host. *)
Lemma single_host_counterexample :
  ¬ (∀ st, reachable st →
       ∀ k room, rooms st !! k = Some room → size (hosts room) = 1).
Proof.
  intros Hclaim.
  assert (size (hosts (room_of rejoined "R1")) = 1) as Hone.
  { apply (Hclaim rejoined (reachable_run _) "R1"). evaluate. }
  vm_compute in Hone. discriminate.
Qed.

(** Bob, a participant, cannot clear while hostCanClear is on. *)
Lemma clear_canvas_gate_witness :
  handle session "s2" 6 In.clear_canvas = (session, []).
Proof.
  assert (bound_to session "s2" bob (room_of session "R1")) as Hbound
    by bound_by_evaluation.
  destruct (clear_canvas_gate session "s2" 6 bob (room_of session "R1") Hbound)
    as (_ & Hdenied & _).
  apply Hdenied. intros [Hhost|Hflag]; [discriminate Hhost|].
  vm_compute in Hflag. discriminate Hflag.
Defined.

(** Carol asks for the id of the lobby. *)
Lemma create_room_collision_witness :
  handle lobby "s3" 3 (In.create_room "R1" "Carol")
  = (lobby, [to_socket "s3" Out.room_exists])
  ∧ rooms (handle lobby "s3" 3 (In.create_room "R1" "Carol")).1 !! "R1"
    = Some (room_of lobby "R1").
Proof.
  apply (create_room_collision lobby "s3" 3 "R1" "Carol" (room_of lobby "R1")).
  - apply reachable_run.
  - evaluate.
  - reflexivity.
Defined.

(** The fifty-first connection is turned away. *)
Lemma join_room_refused_witness :
  handle full_house "late" 3 (In.join_room "R1" "Zed")
  = (full_house, [to_socket "late" Out.room_full]).
Proof.
  destruct (join_room_refused full_house "late" 3 "R1" "Zed") as [Hfull _].
  apply (Hfull (room_of full_house "R1")).
  - evaluate.
  - vm_compute. lia.
Defined.

(** Bob, who left the lobby, still moves the room's slide index. *)
Lemma artifact_events_unguarded_witness :
  Room.state (room_of lobby_after_leave "R1") = LOBBY
  ∧ Socket.role bob = Participant
  ∧ Room.participants (room_of lobby_after_leave "R1") !! "s2" = None
  ∧ (handle lobby_after_leave "s2" 4 (In.slide_changed (Some 3%Z))).2
    = [to_others "R1" "s2" (Out.slide_changed (Some 3%Z))]
  ∧ Room.currentSlide
      (room_of (handle lobby_after_leave "s2" 4 (In.slide_changed (Some 3%Z))).1
         "R1")
    = Some 3%Z.
Proof.
  assert (bound_to lobby_after_leave "s2" bob (room_of lobby_after_leave "R1"))
    as Hbound by bound_by_evaluation.
  destruct (artifact_events_unguarded lobby_after_leave "s2" 4 bob
              (room_of lobby_after_leave "R1") Hbound)
    as (_ & _ & _ & _ & Hslide & _).
  split; [evaluate|]. split; [reflexivity|]. split; [evaluate|].
  rewrite (Hslide (Some 3%Z)). split; [reflexivity|evaluate].
Defined.

(** Alice is ready, and her toggle-ready is dropped. *)
Lemma host_always_ready_witness :
  Participant.ready (Participant.mk "s1" "Alice" Host true 1) = true
  ∧ handle lobby "s1" 3 (In.toggle_ready false) = (lobby, []).
Proof.
  destruct (host_always_ready lobby (reachable_run _)) as (Hready & _ & Hdrop).
  split.
  - apply (Hready "R1" (room_of lobby "R1") "s1"); evaluate.
  - apply (Hdrop "s1" 3%Z false alice); evaluate.
Defined.

(** The host clears on slide 0; the stroke on slide 1 stays. *)
Lemma clear_canvas_frame_witness :
  ∃ room', rooms (handle session "s1" 6 In.clear_canvas).1 !! "R1" = Some room'
    ∧ Room.drawings room' = []
    ∧ slide_log room' (slideKey (Some 0%Z)) = []
    ∧ slide_log room' (slideKey (Some 1%Z))
      = [Drawing.mk "draw" (Some 1%Z) "stroke-b" "s2" "Bob" Participant 5].
Proof.
  assert (bound_to session "s1" alice (room_of session "R1")) as Hbound
    by bound_by_evaluation.
  assert (may_clear alice (room_of session "R1")) as Hmay by (by left).
  destruct (clear_canvas_frame session "s1" 6 alice (room_of session "R1")
              Hbound Hmay)
    as (room' & Hroom' & Hflat & Hcurrent & _ & Hothers & _).
  exists room'. split; [exact Hroom'|]. split; [exact Hflat|].
  unfold slide_log. split.
  - replace (slideKey (Some 0%Z))
      with (slideKey (Room.currentSlide (room_of session "R1"))) by evaluate.
    by rewrite Hcurrent.
  - rewrite (Hothers (Some 1%Z)) by (vm_compute; discriminate). evaluate.
Defined.

(** * Further properties of the handlers *)

Lemma room_evolves_refl room : room_evolves room room.
Proof. split; try done; [by left|by left|]. intros; left; eauto. Qed.

(** An update that leaves identity, caps, lifecycle state and directory
    alone and only drops or keeps slide logs. *)
Lemma room_evolves_artifacts room room' :
  Room.id room' = Room.id room →
  Room.host room' = Room.host room →
  Room.createdAt room' = Room.createdAt room →
  Settings.hostCanClear (Room.settings room')
    = Settings.hostCanClear (Room.settings room) →
  Settings.hostCanMute (Room.settings room')
    = Settings.hostCanMute (Room.settings room) →
  Settings.maxParticipants (Room.settings room')
    = Settings.maxParticipants (Room.settings room) →
  Room.state room' = Room.state room →
  Room.participants room' = Room.participants room →
  (∀ key log', Room.slideDrawings room' !! key = Some log' →
               Room.slideDrawings room !! key = Some log') →
  room_evolves room room'.
Proof.
  intros ? ? ? ? ? ? ? Hps Hlogs. split; try done; [by left|by left|].
  intros key log' record Hkey Hin. left. eauto.
Qed.

Lemma room_evolves_set_room st k room room' j room'' :
  rooms st !! k = Some room → room_evolves room room' →
  rooms (set_room k room' st) !! j = Some room'' →
  ∃ room0, rooms st !! j = Some room0 ∧ room_evolves room0 room''.
Proof.
  intros Hroom Hev Hj. cbn in Hj.
  apply lookup_insert_Some in Hj as [[<- <-]|[Hne Hj]]; [eauto|].
  exists room''. split; [done|apply room_evolves_refl].
Qed.

Lemma rooms_evolve_refl st : rooms_evolve st st.
Proof. intros k room Hk. exists room. split; [done|apply room_evolves_refl]. Qed.

Lemma rooms_evolve_set_room st k room room' :
  rooms st !! k = Some room → room_evolves room room' →
  rooms_evolve st (set_room k room' st).
Proof. intros Hroom Hev j room'' Hj. by eapply room_evolves_set_room. Qed.

Lemma on_drawing_evolve st sid now data : rooms_evolve st (on_drawing st sid now data).1.
Proof.
  unfold on_drawing.
  destruct (sockets st !! sid) as [socket|]; [|apply rooms_evolve_refl].
  destruct (negb _); [apply rooms_evolve_refl|].
  destruct (rooms st !! Socket.roomId socket) as [room|] eqn:Hroom;
    [|apply rooms_evolve_refl].
  destruct (decide (Room.state room = ACTIVE)); [|apply rooms_evolve_refl].
  destruct (Room.participants room !! sid); [|apply rooms_evolve_refl].
  destruct (negb _); [apply rooms_evolve_refl|].
  cbn [fst]. apply (rooms_evolve_set_room st _ room); [done|].
  split; try done; [by left|by left|].
  cbn [Room.slideDrawings Room.with_drawings Room.with_slideDrawings].
  intros key log' record Hkey Hin.
  destruct (Stroke.slideIndex data) as [index|] eqn:Hindex; [|left; eauto].
  destruct (decide (Stroke.type data = "draw")) as [Hdraw|Hother].
  - apply lookup_insert_Some in Hkey as [[<- <-]|[Hne Hkey]].
    + apply elem_of_app in Hin as [Hin|Hin].
      * destruct (Room.slideDrawings room !! slideKey (Some index)) as [log|] eqn:Hlog.
        -- rewrite Hlog in Hin. left. eauto.
        -- rewrite lookup_insert_eq in Hin. by apply not_elem_of_nil in Hin.
      * apply list_elem_of_singleton in Hin as ->. right.
        split; [done|]. by exists index.
    + destruct (Room.slideDrawings room !! slideKey (Some index)); [left; eauto|].
      rewrite lookup_insert_ne in Hkey by done. left; eauto.
  - destruct (Room.slideDrawings room !! slideKey (Some index)) eqn:Hlog;
      [left; eauto|].
    apply lookup_insert_Some in Hkey as [[<- <-]|[Hne Hkey]]; [|left; eauto].
    by apply not_elem_of_nil in Hin.
Qed.

Lemma on_create_room_fresh st sid now roomId username :
  truthy roomId = true → truthy username = true → rooms st !! roomId = None →
  on_create_room st sid now roomId username =
    (Server (<[roomId := fresh_room roomId sid username now]> (rooms st))
            (<[sid := UserInfo.mk roomId username Host]> (connectedUsers st))
            (<[sid := Socket.mk roomId username Host]> (sockets st)),
     [join_group sid roomId;
      to_socket sid
        (Out.room_created roomId
           {[ sid := Participant.mk sid username Host true now ]})]).
Proof.
  intros Hid Hname Hfree. unfold on_create_room. by rewrite Hid, Hname, Hfree.
Qed.

Lemma rooms_evolve_same st st' : rooms st' = rooms st → rooms_evolve st st'.
Proof.
  intros Heq k room Hk. rewrite Heq in Hk.
  exists room. split; [done|apply room_evolves_refl].
Qed.

Lemma leaveRoom_evolve st sid : rooms_evolve st (leaveRoom st sid).1.
Proof.
  unfold leaveRoom.
  destruct (connectedUsers st !! sid) as [u|]; [|apply rooms_evolve_refl].
  cbn [fst].
  destruct (rooms st !! UserInfo.roomId u) as [room|] eqn:Hroom;
    [|by apply rooms_evolve_same].
  unfold leave_bound_room. intros k room' Hk. cbn in Hk.
  destruct (decide (socket_role st sid = Some Host));
    destruct (decide (size (delete sid (Room.participants room)) = 0)) as [|Hsize];
    cbn in Hk.
  - apply lookup_delete_Some in Hk as [_ Hk].
    apply lookup_delete_Some in Hk as [_ Hk].
    exists room'. split; [done|apply room_evolves_refl].
  - apply lookup_delete_Some in Hk as [_ Hk].
    exists room'. split; [done|apply room_evolves_refl].
  - apply lookup_delete_Some in Hk as [Hne Hk].
    rewrite lookup_insert_ne in Hk by done.
    exists room'. split; [done|apply room_evolves_refl].
  - apply lookup_insert_Some in Hk as [[<- <-]|[Hne Hk]].
    + exists room. split; [done|].
      split; try done; [by left| |intros; left; eauto].
      right. right. right. by exists sid.
    + exists room'. split; [done|apply room_evolves_refl].
Qed.

Lemma on_join_room_evolve st sid now roomId username :
  rooms_evolve st (on_join_room st sid now roomId username).1.
Proof.
  unfold on_join_room.
  destruct (rooms st !! roomId) as [room|] eqn:Hroom; [|apply rooms_evolve_refl].
  destruct (_ <=? _) eqn:Hcap; [apply rooms_evolve_refl|].
  apply Nat.leb_gt in Hcap. cbn [fst].
  apply (rooms_evolve_set_room st roomId room); [done|].
  split; try done; [by left| |intros; left; eauto].
  right. left. by exists sid, username, now.
Qed.

Lemma on_toggle_ready_evolve st sid ready :
  rooms_evolve st (on_toggle_ready st sid ready).1.
Proof.
  destruct (on_toggle_ready_cases st sid ready)
    as [->|(socket & room & p & _ & _ & Hroom & Hp & ->)];
    [apply rooms_evolve_refl|].
  apply (rooms_evolve_set_room st _ room); [done|].
  split; try done; [by left| |intros; left; eauto].
  right. right. left. by exists sid, p, ready.
Qed.

Lemma on_start_session_evolve st sid : rooms_evolve st (on_start_session st sid).1.
Proof.
  unfold on_start_session. repeat case_match; cbn [fst];
    try apply rooms_evolve_refl.
  eapply rooms_evolve_set_room; [eassumption|].
  split; try done; [by right|by left|intros; left; eauto].
Qed.

(** A step either evolves the rooms it keeps or, for create-room, adds
    one fresh room under an unused, non-empty id. *)
Lemma step_rooms st i k room' :
  rooms (step st i).1 !! k = Some room' →
  (∃ room, rooms st !! k = Some room ∧ room_evolves room room')
  ∨ (rooms st !! k = None ∧ truthy k = true
     ∧ ∃ sid username now, room' = fresh_room k sid username now).
Proof.
  destruct i as [sid now e|now]; [destruct e|]; cbn [step handle].
  2-21: intros Hk; left; revert k room' Hk;
    match goal with |- ∀ k r, rooms ?s !! k = Some r → _ =>
      change (rooms_evolve st s) end.
  - destruct (on_create_room_cases st sid now roomId username)
      as [->|(Htruthy & Hfree & ->)].
    + intros Hk. left. exists room'. split; [done|apply room_evolves_refl].
    + cbn. intros Hk.
      apply lookup_insert_Some in Hk as [[<- <-]|[Hne Hk]].
      * right. split; [done|]. split; [done|]. by exists sid, username, now.
      * left. exists room'. split; [done|apply room_evolves_refl].
  - apply on_join_room_evolve.
  - apply on_toggle_ready_evolve.
  - apply on_start_session_evolve.
  - apply on_drawing_evolve.
  - unfold on_chat_message. repeat case_match; apply rooms_evolve_refl.
  - unfold on_file_upload_started. repeat case_match; apply rooms_evolve_refl.
  - unfold on_background_image_set. repeat case_match; cbn [fst];
      try apply rooms_evolve_refl.
    eapply rooms_evolve_set_room; [eassumption|].
    by apply room_evolves_artifacts.
  - unfold on_background_cleared. repeat case_match; cbn [fst];
      try apply rooms_evolve_refl.
    eapply rooms_evolve_set_room; [eassumption|].
    by apply room_evolves_artifacts.
  - unfold on_file_shared. repeat case_match; cbn [fst];
      try apply rooms_evolve_refl;
      (eapply rooms_evolve_set_room; [eassumption|]);
      [by apply room_evolves_artifacts|apply room_evolves_refl].
  - unfold on_presentation_shared. repeat case_match; cbn [fst];
      try apply rooms_evolve_refl.
    eapply rooms_evolve_set_room; [eassumption|].
    by apply room_evolves_artifacts.
  - unfold on_slide_changed. repeat case_match; cbn [fst];
      try apply rooms_evolve_refl.
    eapply rooms_evolve_set_room; [eassumption|].
    by apply room_evolves_artifacts.
  - unfold on_slide_drawings_cleared. repeat case_match; cbn [fst];
      try apply rooms_evolve_refl.
    eapply rooms_evolve_set_room; [eassumption|].
    apply room_evolves_artifacts; try done.
    cbn. intros key log' Hkey. by apply lookup_delete_Some in Hkey as [_ ?].
  - unfold on_text_added. repeat case_match; cbn [fst];
      try apply rooms_evolve_refl.
    eapply rooms_evolve_set_room; [eassumption|].
    by apply room_evolves_artifacts.
  - unfold on_clear_canvas. repeat case_match; cbn [fst];
      try apply rooms_evolve_refl.
    eapply rooms_evolve_set_room; [eassumption|].
    apply room_evolves_artifacts; try done.
    cbn. intros key log' Hkey. by apply lookup_delete_Some in Hkey as [_ ?].
  - unfold on_toggle_participant_drawing. repeat case_match; cbn [fst];
      try apply rooms_evolve_refl.
    eapply rooms_evolve_set_room; [eassumption|].
    by apply room_evolves_artifacts.
  - unfold on_toggle_participant_chat. repeat case_match; cbn [fst];
      try apply rooms_evolve_refl.
    eapply rooms_evolve_set_room; [eassumption|].
    by apply room_evolves_artifacts.
  - unfold on_kick_participant. repeat case_match; cbn [fst];
      try apply rooms_evolve_refl. apply leaveRoom_evolve.
  - apply leaveRoom_evolve.
  - apply leaveRoom_evolve.
  - intros k0 r Hk. cbn in Hk. apply map_lookup_filter_Some in Hk as [Hk _].
    exists r. split; [done|apply room_evolves_refl].
Qed.

Lemma fresh_room_sound k sid username now :
  sound_room k (fresh_room k sid username now).
Proof.
  split; try done; cbn.
  - rewrite map_size_singleton. lia.
  - intros sid' p Hp. by apply lookup_singleton_Some in Hp as [<- <-].
Qed.

Lemma room_evolves_sound k room room' :
  sound_room k room → room_evolves room room' → sound_room k room'.
Proof.
  intros [Hid Hstate Hclear Hmute Hmax Hsize Hseats Hlogs]
         [Eid Ehost Ecreated Eclear Emute Emax Estate Eps Elogs].
  split; try congruence.
  - destruct Estate as [->|[_ ->]]; done.
  - rewrite Hmax in Eps.
    destruct Eps as [->|[(sid & username & now & -> & Hlt)
                       |[(sid & p & ready & Hp & ->)|(sid & -> & Hne)]]].
    + done.
    + rewrite map_size_insert. destruct (Room.participants room !! sid); cbn; lia.
    + rewrite map_size_insert_Some by eauto. done.
    + split; [lia|]. rewrite map_size_delete.
      destruct (Room.participants room !! sid); cbn; lia.
  - destruct Eps as [->|[(sid & username & now & -> & Hlt)
                       |[(sid & p & ready & Hp & ->)|(sid & -> & Hne)]]];
      intros sid' p' Hp'.
    + eauto.
    + apply lookup_insert_Some in Hp' as [[<- <-]|[_ Hp']]; eauto.
    + apply lookup_insert_Some in Hp' as [[<- <-]|[_ Hp']]; [|eauto].
      cbn. eauto.
    + apply lookup_delete_Some in Hp' as [_ Hp']. eauto.
  - intros key log' record Hkey Hin.
    destruct (Elogs _ _ _ Hkey Hin) as [(log & Hlog & Hin')|Hnew]; eauto.
Qed.

Lemma reachable_by_sound ok st :
  reachable_by ok st → ∀ k room, rooms st !! k = Some room → sound_room k room.
Proof.
  induction 1 as [|st i _ IH _]; intros k room' Hk.
  - cbn in Hk. by rewrite lookup_empty in Hk.
  - apply step_rooms in Hk
      as [(room & Hroom & Hev)|(_ & _ & sid & username & now & ->)].
    + eapply room_evolves_sound; eauto.
    + apply fresh_room_sound.
Qed.

(** ** Shape of the registry *)

(** X1: in every reachable state the registry is keyed by identity: a
    room is stored under its own id, that id is not empty, and every
    directory entry is stored under the socket id it carries. *)
Theorem registry_keyed_by_identity st k room :
  reachable st → rooms st !! k = Some room →
  Room.id room = k ∧ truthy k = true
  ∧ ∀ sid p, Room.participants room !! sid = Some p → Participant.id p = sid.
Proof.
  intros Hreach Hroom.
  destruct (reachable_by_sound _ _ Hreach _ _ Hroom) as [Hid _ _ _ _ _ Hseats _].
  split; [done|]. split; [|done].
  by apply (inv_keys _ (reachable_by_directory_inv _ _ Hreach) _ room).
Qed.

Lemma registry_keyed_by_identity_witness :
  Room.id (room_of lobby "R1") = "R1"
  ∧ Participant.id (Participant.mk "s2" "Bob" Participant false 2) = "s2".
Proof.
  destruct (registry_keyed_by_identity lobby "R1" (room_of lobby "R1"))
    as (Hid & _ & Hseats); [apply reachable_run|evaluate|].
  split; [exact Hid|]. apply Hseats. evaluate.
Defined.

(** X2: in every reachable state a live room has at least one participant
    and never more than its cap, and the cap is the 50 it was created
    with. *)
Theorem directory_within_cap st k room :
  reachable st → rooms st !! k = Some room →
  1 ≤ size (Room.participants room)
  ∧ size (Room.participants room) ≤ Settings.maxParticipants (Room.settings room)
  ∧ Settings.maxParticipants (Room.settings room) = 50.
Proof.
  intros Hreach Hroom.
  destruct (reachable_by_sound _ _ Hreach _ _ Hroom) as [_ _ _ _ Hmax Hsize _ _].
  rewrite Hmax. lia.
Qed.

Lemma directory_within_cap_witness :
  size (Room.participants (room_of full_house "R1")) ≤ 50.
Proof.
  destruct (directory_within_cap full_house "R1" (room_of full_house "R1"))
    as (_ & Hle & Hmax); [apply reachable_run|evaluate|].
  by rewrite Hmax in Hle.
Defined.

(** X3: no handler ever writes hostCanClear or hostCanMute, so both are
    on in every room of a reachable state; hence a clear-canvas from a
    socket whose role is not host is always dropped there, changing
    nothing and emitting nothing. *)
Theorem clear_canvas_host_only st sid now :
  reachable st →
  (∀ k room, rooms st !! k = Some room →
     Settings.hostCanClear (Room.settings room) = true
     ∧ Settings.hostCanMute (Room.settings room) = true)
  ∧ (socket_role st sid ≠ Some Host →
     handle st sid now In.clear_canvas = (st, [])).
Proof.
  intros Hreach. split.
  - intros k room Hroom.
    by destruct (reachable_by_sound _ _ Hreach _ _ Hroom) as [_ _ ? ? _ _ _ _].
  - intros Hrole. cbn. unfold on_clear_canvas, socket_role in *.
    destruct (sockets st !! sid) as [socket|]; [|done]. cbn in Hrole.
    destruct (negb _); [done|].
    destruct (rooms st !! Socket.roomId socket) as [room|] eqn:Hroom; [|done].
    destruct (reachable_by_sound _ _ Hreach _ _ Hroom) as [_ _ -> _ _ _ _ _].
    rewrite bool_decide_eq_false_2; [done|]. congruence.
Qed.

Lemma clear_canvas_host_only_witness :
  handle session "s2" 6 In.clear_canvas = (session, []).
Proof.
  destruct (clear_canvas_host_only session "s2" 6 (reachable_run _)) as [_ Hdrop].
  apply Hdrop. vm_compute. discriminate.
Defined.

Lemma same_state_refl st : same_state st st.
Proof. intros k room room' Hroom Hroom'. congruence. Qed.

Lemma same_state_set_room st k room room' :
  rooms st !! k = Some room → Room.state room' = Room.state room →
  same_state st (set_room k room' st).
Proof.
  intros Hroom Hstate j r r' Hr Hr'. cbn in Hr'.
  apply lookup_insert_Some in Hr' as [[<- <-]|[Hne Hr']]; congruence.
Qed.

Lemma leaveRoom_same_state st sid : same_state st (leaveRoom st sid).1.
Proof.
  intros k room room' Hroom Hroom'.
  apply leaveRoom_rooms in Hroom'
    as [[Hk _]|(u & room0 & _ & _ & Hroom0 & -> & _)]; [congruence|].
  cbn. congruence.
Qed.

Lemma step_same_state st i :
  (∀ sid now, i ≠ from_socket sid now In.start_session) →
  same_state st (step st i).1.
Proof.
  intros Hnot.
  destruct i as [sid now e|now]; [destruct e|]; cbn [step handle];
    try (by edestruct Hnot).
  all: try (unfold on_drawing, on_chat_message, on_file_upload_started,
    on_background_image_set, on_background_cleared, on_file_shared,
    on_presentation_shared, on_slide_changed, on_slide_drawings_cleared,
    on_text_added, on_clear_canvas, on_toggle_participant_drawing,
    on_toggle_participant_chat;
    repeat case_match; cbn [fst];
    try apply same_state_refl;
    by (eapply same_state_set_room; [eassumption|done..])).
  - destruct (on_create_room_cases st sid now roomId username)
      as [->|(_ & Hfree & ->)]; [apply same_state_refl|].
    intros k room room' Hroom Hroom'. cbn in Hroom'.
    apply lookup_insert_Some in Hroom' as [[<- <-]|[Hne Hr']]; congruence.
  - destruct (on_join_room_cases st sid now roomId username)
      as [->|(room & Hroom & ->)]; [apply same_state_refl|].
    by apply (same_state_set_room st roomId room).
  - destruct (on_toggle_ready_cases st sid ready)
      as [->|(socket & room & p & _ & _ & Hroom & _ & ->)];
      [apply same_state_refl|].
    by apply (same_state_set_room st _ room).
  - unfold on_kick_participant. repeat case_match; cbn [fst];
      try apply same_state_refl. apply leaveRoom_same_state.
  - apply leaveRoom_same_state.
  - apply leaveRoom_same_state.
  - intros k room room' Hroom Hroom'. cbn in Hroom'.
    apply map_lookup_filter_Some in Hroom' as [Hroom' _]. congruence.
Qed.

(** X4: no room of a reachable state is in the ended state (a room that
    ends is deleted instead), and no step moves a room that stays in the
    registry anywhere but from lobby to active, which only start-session
    does. *)
Theorem lifecycle_forward st :
  (reachable st → ∀ k room, rooms st !! k = Some room → Room.state room ≠ ENDED)
  ∧ (∀ i k room room',
       rooms st !! k = Some room → rooms (step st i).1 !! k = Some room' →
       Room.state room' = Room.state room
       ∨ (Room.state room = LOBBY ∧ Room.state room' = ACTIVE
          ∧ ∃ sid now, i = from_socket sid now In.start_session)).
Proof.
  split.
  - intros Hreach k room Hroom.
    by destruct (reachable_by_sound _ _ Hreach _ _ Hroom) as [_ ? _ _ _ _ _ _].
  - intros i k room room' Hroom Hroom'.
    assert ((∃ sid now, i = from_socket sid now In.start_session)
            ∨ ∀ sid now, i ≠ from_socket sid now In.start_session) as [Hstart|Hnot].
    { destruct i as [sid now e|now]; [destruct e|]; try (by right);
        left; by eexists _, _. }
    + pose proof Hroom' as Hstep.
      apply step_rooms in Hstep as [(room0 & Hroom0 & Hev)|(Hnone & _)];
        [|congruence].
      assert (room0 = room) as -> by congruence.
      destruct (ev_state _ _ Hev) as [|[Hlobby Hactive]]; [by left|by right].
    + left. by eapply step_same_state.
Qed.

Lemma lifecycle_forward_witness :
  Room.state (room_of session "R1") ≠ ENDED
  ∧ Room.state (room_of (step session (from_socket "s1" 6 In.start_session)).1 "R1")
    = ACTIVE.
Proof.
  destruct (lifecycle_forward session) as [Hlive Hforward].
  split.
  - apply (Hlive (reachable_run _) "R1"). evaluate.
  - destruct (Hforward (from_socket "s1" 6%Z In.start_session) "R1"
                (room_of session "R1")
                (room_of (step session (from_socket "s1" 6 In.start_session)).1 "R1"))
      as [->|(Hlobby & _)]; [evaluate|evaluate|evaluate|].
    vm_compute in Hlobby. discriminate Hlobby.
Defined.

(** X5: in every reachable state each record of a per-slide log is a
    committed stroke (kind draw) that was sent for the very slide whose
    key the log is stored under. *)
Theorem slide_logs_hold_committed_strokes st k room key log record :
  reachable st → rooms st !! k = Some room →
  Room.slideDrawings room !! key = Some log → record ∈ log →
  Drawing.type record = "draw"
  ∧ Drawing.slideIndex record ≠ None
  ∧ key = slideKey (Drawing.slideIndex record).
Proof.
  intros Hreach Hroom Hkey Hin.
  destruct (reachable_by_sound _ _ Hreach _ _ Hroom) as [_ _ _ _ _ _ _ Hlogs].
  destruct (Hlogs _ _ _ Hkey Hin) as (Hdraw & index & Hindex & ->).
  rewrite Hindex. done.
Qed.

Lemma slide_logs_hold_committed_strokes_witness :
  Drawing.type (Drawing.mk "draw" (Some 1%Z) "stroke-b" "s2" "Bob" Participant 5)
  = "draw".
Proof.
  refine (proj1 (slide_logs_hold_committed_strokes session "R1"
                   (room_of session "R1") (slideKey (Some 1%Z))
                   [Drawing.mk "draw" (Some 1%Z) "stroke-b" "s2" "Bob" Participant 5]
                   _ (reachable_run _) _ _ _)).
  - evaluate.
  - evaluate.
  - apply list_elem_of_here.
Defined.

(** ** The sweep *)

(** X6: the sweep keeps exactly the rooms that are not both empty and
    older than ROOM_TIMEOUT, and never touches the connection tables; on
    a reachable state it removes nothing, because a room is deleted the
    moment its directory empties. *)
Theorem room_cleanup_removes_stale_only st now :
  (∀ k room, rooms (room_cleanup st now) !! k = Some room
             ↔ rooms st !! k = Some room
               ∧ ¬ ((ROOM_TIMEOUT < now - Room.createdAt room)%Z
                    ∧ size (Room.participants room) = 0))
  ∧ connectedUsers (room_cleanup st now) = connectedUsers st
  ∧ sockets (room_cleanup st now) = sockets st
  ∧ (reachable st → step st (cleanup_tick now) = (st, [])).
Proof.
  split; [|split; [done|split; [done|]]].
  - intros k room. cbn. by rewrite map_lookup_filter_Some.
  - intros Hreach. cbn. f_equal. unfold room_cleanup.
    rewrite map_filter_id; [by destruct st|].
    intros k room Hroom [_ Hempty]. cbn in Hempty.
    destruct (reachable_by_sound _ _ Hreach _ _ Hroom) as [_ _ _ _ _ Hsize _ _].
    lia.
Qed.

Lemma room_cleanup_removes_stale_only_witness :
  step lobby (cleanup_tick (ROOM_TIMEOUT + 100)) = (lobby, []).
Proof.
  destruct (room_cleanup_removes_stale_only lobby (ROOM_TIMEOUT + 100))
    as (_ & _ & _ & Hsame).
  apply Hsame, reachable_run.
Defined.

(** ** Session start *)

Lemma set_room_same st k room : rooms st !! k = Some room → set_room k room st = st.
Proof.
  intros Hroom. unfold set_room. rewrite insert_id by done. by destruct st.
Qed.

(** X7: start-session from a sender bound to a live room moves the room
    to active and announces it (at once, and again after 1000 ms) exactly
    when the sender's role is host and the room is in the lobby, whatever
    the readiness of the participants; a second start-session is dropped,
    and so is one from a participant or for a room already active. *)
Theorem start_session_gate st sid now socket room :
  bound_to st sid socket room →
  let roomId := Socket.roomId socket in
  let started :=
    set_room roomId
      (Room.mk (Room.id room) (Room.host room) ACTIVE (Room.participants room)
         (Room.drawings room) (Room.backgroundImage room) (Room.slides room)
         (Room.currentSlide room) (Room.slideDrawings room) (Room.settings room)
         (Room.createdAt room)) st in
  (Socket.role socket = Host → Room.state room = LOBBY →
     handle st sid now In.start_session =
       (started,
        [to_room roomId Out.session_starting;
         to_room_later 1000 sid roomId Out.session_started])
     ∧ ∀ now', handle started sid now' In.start_session = (started, []))
  ∧ (Socket.role socket ≠ Host ∨ Room.state room ≠ LOBBY →
     handle st sid now In.start_session = (st, [])).
Proof.
  intros (Hsocket & Htruthy & Hroom) roomId started. subst roomId started.
  cbn [handle]. unfold on_start_session. split.
  - intros Hrole Hstate. split.
    + rewrite Hsocket, Htruthy, Hrole, Hroom. cbn. by rewrite decide_True.
    + intros now'. cbn [sockets set_room rooms].
      rewrite Hsocket, Htruthy, Hrole, lookup_insert_eq. done.
  - intros Hno. rewrite Hsocket, Htruthy, Hroom. cbn.
    destruct (bool_decide (Socket.role socket = Host)) eqn:Hrole; [|done].
    apply bool_decide_eq_true in Hrole. cbn.
    destruct (decide (Room.state room = LOBBY)); [|done].
    by destruct Hno.
Qed.

Lemma start_session_gate_witness :
  handle lobby "s2" 3 In.start_session = (lobby, []).
Proof.
  assert (bound_to lobby "s2" bob (room_of lobby "R1")) as Hbound
    by bound_by_evaluation.
  destruct (start_session_gate lobby "s2" 3 bob (room_of lobby "R1") Hbound)
    as [_ Hdrop].
  apply Hdrop. left. discriminate.
Defined.

(** ** Chat and text *)

(** X8: a chat message is sent to the whole room, sender included, with
    the sender's name, role and the time, exactly when the sender is in
    the directory as host or with participantsCanChat on; in no case is
    the server state changed, and a refused message emits nothing. *)
Theorem chat_gate st sid now message socket room :
  bound_to st sid socket room →
  (may_chat room sid →
     handle st sid now (In.chat_message message) =
       (st, [to_room (Socket.roomId socket)
               (Out.chat_message (Socket.username socket) (Socket.role socket)
                                 message now)]))
  ∧ (¬ may_chat room sid →
     handle st sid now (In.chat_message message) = (st, [])).
Proof.
  intros (Hsocket & Htruthy & Hroom). cbn [handle]. unfold on_chat_message.
  rewrite Hsocket, Htruthy, Hroom. cbn [negb]. split.
  - intros (p & Hp & Hgate). rewrite Hp.
    assert (bool_decide (Participant.role p = Host)
            || Settings.participantsCanChat (Room.settings room) = true) as ->;
      [|done].
    rewrite orb_true_iff, bool_decide_eq_true. tauto.
  - intros Hno. destruct (Room.participants room !! sid) as [p|] eqn:Hp; [|done].
    assert (bool_decide (Participant.role p = Host)
            || Settings.participantsCanChat (Room.settings room) = false) as ->;
      [|done].
    apply not_true_is_false. rewrite orb_true_iff, bool_decide_eq_true.
    intros Hgate. apply Hno. by exists p.
Qed.

Lemma chat_gate_witness :
  handle lobby "s2" 3 (In.chat_message "hello")
  = (lobby, [to_room "R1" (Out.chat_message "Bob" Participant "hello" 3)]).
Proof.
  assert (bound_to lobby "s2" bob (room_of lobby "R1")) as Hbound
    by bound_by_evaluation.
  destruct (chat_gate lobby "s2" 3 "hello" bob (room_of lobby "R1") Hbound)
    as [Hsent _].
  apply Hsent. eexists. split; [evaluate|]. right. evaluate.
Defined.

(** X9: text-added is stored as a record on the flat log and relayed to
    the others exactly when the sender is in the directory as host or
    with participantsCanDraw on; unlike drawing it is not tied to the
    active phase: in a room that is not active the same sender's drawing
    events are dropped. *)
Theorem text_added_gate st sid now data socket room :
  bound_to st sid socket room →
  (may_annotate room sid →
     handle st sid now (In.text_added data) =
       (set_room (Socket.roomId socket)
          (Room.mk (Room.id room) (Room.host room) (Room.state room)
             (Room.participants room)
             (Room.drawings room ++ [text_record socket sid now data])
             (Room.backgroundImage room) (Room.slides room)
             (Room.currentSlide room) (Room.slideDrawings room)
             (Room.settings room) (Room.createdAt room)) st,
        [to_others (Socket.roomId socket) sid
           (Out.text_added data sid (Socket.username socket)
                           (Socket.role socket) now)]))
  ∧ (¬ may_annotate room sid →
     handle st sid now (In.text_added data) = (st, []))
  ∧ (may_annotate room sid → Room.state room ≠ ACTIVE →
     ∀ stroke, handle st sid now (In.drawing stroke) = (st, [])).
Proof.
  intros Hbound. split; [|split].
  - destruct Hbound as (Hsocket & Htruthy & Hroom).
    cbn [handle]. unfold on_text_added.
    rewrite Hsocket, Htruthy, Hroom. cbn [negb].
    intros (p & Hp & Hgate). rewrite Hp.
    assert (bool_decide (Participant.role p = Host)
            || Settings.participantsCanDraw (Room.settings room) = true) as ->;
      [|done].
    rewrite orb_true_iff, bool_decide_eq_true. tauto.
  - destruct Hbound as (Hsocket & Htruthy & Hroom).
    cbn [handle]. unfold on_text_added.
    rewrite Hsocket, Htruthy, Hroom. cbn [negb].
    intros Hno. destruct (Room.participants room !! sid) as [p|] eqn:Hp; [|done].
    assert (bool_decide (Participant.role p = Host)
            || Settings.participantsCanDraw (Room.settings room) = false) as ->;
      [|done].
    apply not_true_is_false. rewrite orb_true_iff, bool_decide_eq_true.
    intros Hgate. apply Hno. by exists p.
  - intros _ Hstate stroke. apply (drawing_denied _ _ _ _ socket room); [done|].
    by intros [Hactive _].
Qed.

Lemma text_added_gate_witness :
  (handle lobby "s2" 3 (In.text_added (TextData.mk None "note"))).2
  = [to_others "R1" "s2"
       (Out.text_added (TextData.mk None "note") "s2" "Bob" Participant 3)]
  ∧ handle lobby "s2" 3 (In.drawing stroke_c) = (lobby, []).
Proof.
  assert (bound_to lobby "s2" bob (room_of lobby "R1")) as Hbound
    by bound_by_evaluation.
  assert (may_annotate (room_of lobby "R1") "s2") as Hmay.
  { eexists. split; [evaluate|]. right. evaluate. }
  destruct (text_added_gate lobby "s2" 3 (TextData.mk None "note") bob
              (room_of lobby "R1") Hbound) as (Hstored & _ & Hlobby).
  split.
  - by rewrite (Hstored Hmay).
  - apply (Hlobby Hmay). vm_compute. discriminate.
Defined.

(** ** Permission toggles *)

Lemma toggle_participantsCanDraw_twice s :
  Settings.toggle_participantsCanDraw (Settings.toggle_participantsCanDraw s) = s.
Proof. by destruct s as [? ? [] ? ?]. Qed.

Lemma toggle_participantsCanChat_twice s :
  Settings.toggle_participantsCanChat (Settings.toggle_participantsCanChat s) = s.
Proof. by destruct s as [? ? ? [] ?]. Qed.

(** X10: toggle-participant-drawing and toggle-participant-chat from a
    host flip just their own flag and send the new settings to the whole
    room; sending the same toggle a second time restores the server state
    exactly.  From a sender whose role is not host both are dropped. *)
Theorem permission_toggles st sid now socket room :
  bound_to st sid socket room →
  let roomId := Socket.roomId socket in
  let with_flags canDraw canChat :=
    Settings.mk (Settings.hostCanClear (Room.settings room))
                (Settings.hostCanMute (Room.settings room)) canDraw canChat
                (Settings.maxParticipants (Room.settings room)) in
  let draw_flag := Settings.participantsCanDraw (Room.settings room) in
  let chat_flag := Settings.participantsCanChat (Room.settings room) in
  (Socket.role socket = Host →
     (∃ st1,
        handle st sid now In.toggle_participant_drawing =
          (st1, [to_room roomId
                   (Out.permissions_updated (with_flags (negb draw_flag) chat_flag)
                      (Socket.username socket))])
        ∧ (Room.settings <$> rooms st1 !! roomId)
          = Some (with_flags (negb draw_flag) chat_flag)
        ∧ ∀ now', (handle st1 sid now' In.toggle_participant_drawing).1 = st)
     ∧ (∃ st1,
        handle st sid now In.toggle_participant_chat =
          (st1, [to_room roomId
                   (Out.permissions_updated (with_flags draw_flag (negb chat_flag))
                      (Socket.username socket))])
        ∧ (Room.settings <$> rooms st1 !! roomId)
          = Some (with_flags draw_flag (negb chat_flag))
        ∧ ∀ now', (handle st1 sid now' In.toggle_participant_chat).1 = st))
  ∧ (Socket.role socket ≠ Host →
     handle st sid now In.toggle_participant_drawing = (st, [])
     ∧ handle st sid now In.toggle_participant_chat = (st, [])).
Proof.
  intros (Hsocket & Htruthy & Hroom) roomId with_flags draw_flag chat_flag.
  subst roomId with_flags draw_flag chat_flag. cbn [handle].
  unfold on_toggle_participant_drawing, on_toggle_participant_chat. split.
  - intros Hrole. split.
    + exists (set_room (Socket.roomId socket)
                (Room.with_settings
                   (Settings.toggle_participantsCanDraw (Room.settings room))
                   room) st).
      rewrite Hsocket, Htruthy, Hrole, Hroom.
      split; [done|]. cbn [rooms set_room sockets].
      rewrite lookup_insert_eq. split; [done|].
      intros _. rewrite Hsocket, Htruthy, Hrole. cbn [fst negb orb bool_decide].
      rewrite bool_decide_eq_true_2 by done. cbn [negb].
      unfold set_room. cbn [rooms connectedUsers sockets fst].
      rewrite lookup_insert_eq. cbn [fst rooms].
      rewrite insert_insert_eq. cbn [Room.settings Room.with_settings].
      rewrite toggle_participantsCanDraw_twice.
      replace (Room.with_settings _ _) with room by (by destruct room).
      rewrite insert_id by done. by destruct st.
    + exists (set_room (Socket.roomId socket)
                (Room.with_settings
                   (Settings.toggle_participantsCanChat (Room.settings room))
                   room) st).
      rewrite Hsocket, Htruthy, Hrole, Hroom.
      split; [done|]. cbn [rooms set_room sockets].
      rewrite lookup_insert_eq. split; [done|].
      intros _. rewrite Hsocket, Htruthy, Hrole. cbn [fst negb orb bool_decide].
      rewrite bool_decide_eq_true_2 by done. cbn [negb].
      unfold set_room. cbn [rooms connectedUsers sockets fst].
      rewrite lookup_insert_eq. cbn [fst rooms].
      rewrite insert_insert_eq. cbn [Room.settings Room.with_settings].
      rewrite toggle_participantsCanChat_twice.
      replace (Room.with_settings _ _) with room by (by destruct room).
      rewrite insert_id by done. by destruct st.
  - intros Hrole. rewrite Hsocket, Htruthy. cbn.
    by rewrite bool_decide_eq_false_2.
Qed.

Lemma permission_toggles_witness :
  handle session "s2" 6 In.toggle_participant_drawing = (session, [])
  ∧ (handle (handle session "s1" 6 In.toggle_participant_drawing).1 "s1" 7
       In.toggle_participant_drawing).1 = session.
Proof.
  assert (bound_to session "s2" bob (room_of session "R1")) as Hbob
    by bound_by_evaluation.
  assert (bound_to session "s1" alice (room_of session "R1")) as Halice
    by bound_by_evaluation.
  split.
  - destruct (permission_toggles session "s2" 6 bob (room_of session "R1") Hbob)
      as [_ Hdrop].
    apply Hdrop. discriminate.
  - destruct (permission_toggles session "s1" 6 alice (room_of session "R1") Halice)
      as [Hhost _].
    destruct (Hhost eq_refl) as [(st1 & Hres & _ & Hback) _].
    rewrite Hres. apply Hback.
Defined.

(** ** Creating and joining *)

(** X11: create-room with an empty id or an empty name is answered with
    the invalid-room-data error and changes nothing.  With both present
    and the id free it registers a fresh room in the lobby (empty
    artifacts, default settings, the creator seated as ready host), binds
    the sender to it as host and leaves every other room and connection
    alone. *)
Theorem create_room_outcomes st sid now roomId username :
  (truthy roomId = false ∨ truthy username = false →
     handle st sid now (In.create_room roomId username)
     = (st, [to_socket sid (Out.error "Invalid room data")]))
  ∧ (truthy roomId = true → truthy username = true → rooms st !! roomId = None →
     ∃ st',
       handle st sid now (In.create_room roomId username) =
         (st', [join_group sid roomId;
                to_socket sid
                  (Out.room_created roomId
                     {[ sid := Participant.mk sid username Host true now ]})])
       ∧ rooms st' !! roomId = Some (fresh_room roomId sid username now)
       ∧ (∀ k, k ≠ roomId → rooms st' !! k = rooms st !! k)
       ∧ connectedUsers st' !! sid = Some (UserInfo.mk roomId username Host)
       ∧ sockets st' !! sid = Some (Socket.mk roomId username Host)
       ∧ (∀ other, other ≠ sid →
            connectedUsers st' !! other = connectedUsers st !! other
            ∧ sockets st' !! other = sockets st !! other)).
Proof.
  split.
  - intros Hbad. cbn. unfold on_create_room.
    destruct Hbad as [-> | ->]; [done|]. by rewrite orb_true_r.
  - intros Hid Hname Hfree. eexists. cbn [handle].
    rewrite on_create_room_fresh by done. split; [reflexivity|]. cbn.
    rewrite !lookup_insert_eq. split; [done|].
    split; [intros k Hne; by rewrite lookup_insert_ne|].
    split; [done|]. split; [done|].
    intros other Hne. by rewrite !lookup_insert_ne.
Qed.

Lemma create_room_outcomes_witness :
  handle lobby "s3" 3 (In.create_room "" "Carol")
  = (lobby, [to_socket "s3" (Out.error "Invalid room data")])
  ∧ ∃ st', (handle lobby "s3" 3 (In.create_room "R2" "Carol")).1 = st'
      ∧ rooms st' !! "R2" = Some (fresh_room "R2" "s3" "Carol" 3)
      ∧ rooms st' !! "R1" = rooms lobby !! "R1".
Proof.
  destruct (create_room_outcomes lobby "s3" 3 "" "Carol") as [Hinvalid _].
  destruct (create_room_outcomes lobby "s3" 3 "R2" "Carol") as [_ Hcreated].
  split; [apply Hinvalid; by left|].
  destruct Hcreated as (st' & Hres & Hnew & Hothers & _); [evaluate..|].
  exists st'. rewrite Hres. split; [done|]. split; [done|].
  apply Hothers. discriminate.
Defined.

Lemma on_join_room_seated st sid now roomId username room :
  rooms st !! roomId = Some room →
  size (Room.participants room) < Settings.maxParticipants (Room.settings room) →
  let seated :=
    <[sid := Participant.mk sid username Participant false now]>
      (Room.participants room) in
  on_join_room st sid now roomId username =
    (Server (<[roomId := Room.with_participants seated room]> (rooms st))
            (<[sid := UserInfo.mk roomId username Participant]> (connectedUsers st))
            (<[sid := Socket.mk roomId username Participant]> (sockets st)),
     [join_group sid roomId;
      to_socket sid
        (Out.room_joined roomId (Room.state room) seated
           (if decide (Room.state room = ACTIVE) then
              Some (Snapshot (Room.slides room) (Room.currentSlide room)
                             (Room.backgroundImage room) (Room.settings room))
            else None));
      to_room roomId (Out.lobby_updated seated)]).
Proof.
  intros Hroom Hcap seated. unfold on_join_room. rewrite Hroom.
  apply Nat.leb_gt in Hcap. by rewrite Hcap.
Qed.

(** X12: join-room to a live room below its cap seats the sender as a
    participant who is not ready, binds it to the room, and leaves the
    other seats, the artifacts and the other rooms alone; the directory
    grows by one, or stays the same size when the sender already had a
    seat, which is overwritten.  The reply carries the artifacts exactly
    when the room is active. *)
Theorem join_room_seats st sid now roomId username room :
  rooms st !! roomId = Some room →
  size (Room.participants room) < Settings.maxParticipants (Room.settings room) →
  ∃ st' seated,
    handle st sid now (In.join_room roomId username) =
      (st', [join_group sid roomId;
             to_socket sid
               (Out.room_joined roomId (Room.state room) seated
                  (if decide (Room.state room = ACTIVE) then
                     Some (Snapshot (Room.slides room) (Room.currentSlide room)
                                    (Room.backgroundImage room)
                                    (Room.settings room))
                   else None));
             to_room roomId (Out.lobby_updated seated)])
    ∧ rooms st' !! roomId
      = Some (Room.mk (Room.id room) (Room.host room) (Room.state room) seated
                (Room.drawings room) (Room.backgroundImage room)
                (Room.slides room) (Room.currentSlide room)
                (Room.slideDrawings room) (Room.settings room)
                (Room.createdAt room))
    ∧ seated !! sid = Some (Participant.mk sid username Participant false now)
    ∧ (∀ other, other ≠ sid → seated !! other = Room.participants room !! other)
    ∧ size seated
      = match Room.participants room !! sid with
        | Some _ => size (Room.participants room)
        | None => S (size (Room.participants room))
        end
    ∧ (∀ k, k ≠ roomId → rooms st' !! k = rooms st !! k)
    ∧ connectedUsers st' !! sid = Some (UserInfo.mk roomId username Participant)
    ∧ sockets st' !! sid = Some (Socket.mk roomId username Participant).
Proof.
  intros Hroom Hcap. eexists _, _. cbn [handle].
  rewrite (on_join_room_seated _ _ _ _ _ _ Hroom Hcap).
  split; [reflexivity|]. cbn. rewrite !lookup_insert_eq.
  split; [done|]. split; [done|].
  split; [intros other Hne; by rewrite lookup_insert_ne|].
  split.
  { rewrite map_size_insert. by destruct (Room.participants room !! sid). }
  split; [intros k Hne; by rewrite lookup_insert_ne|]. done.
Qed.

Lemma join_room_seats_witness :
  ∃ st', (handle session "s3" 6 (In.join_room "R1" "Carol")).1 = st'
    ∧ size (Room.participants (room_of st' "R1")) = 3
    ∧ sockets st' !! "s3" = Some (Socket.mk "R1" "Carol" Participant).
Proof.
  destruct (join_room_seats session "s3" 6 "R1" "Carol" (room_of session "R1"))
    as (st' & seated & Hres & Hroom' & _ & _ & Hsize & _ & _ & Hsocket).
  { evaluate. }
  { vm_compute. lia. }
  exists st'. rewrite Hres. split; [done|]. split; [|exact Hsocket].
  unfold room_of. rewrite Hroom'. cbn. rewrite Hsize. evaluate.
Defined.

(** ** Leaving *)

Lemma leaveRoom_unbound st sid :
  connectedUsers st !! sid = None → leaveRoom st sid = (st, []).
Proof. intros Hnone. unfold leaveRoom. by rewrite Hnone. Qed.

Lemma on_disconnect_unbound st sid :
  connectedUsers st !! sid = None →
  on_disconnect st sid
  = (Server (rooms st) (connectedUsers st) (delete sid (sockets st)), []).
Proof.
  intros Hnone. unfold on_disconnect. by rewrite leaveRoom_unbound.
Qed.

(** X13: after leave-room or disconnect the connection has no binding,
    and a further leave-room or disconnect from it emits nothing and
    leaves registry and bindings as they are: a disconnect that follows a
    leave (or a kick) removes nobody twice. *)
Theorem leave_is_final st sid now now' e1 e2 :
  e1 = In.leave_room ∨ e1 = In.disconnect →
  e2 = In.leave_room ∨ e2 = In.disconnect →
  let st1 := (handle st sid now e1).1 in
  connectedUsers st1 !! sid = None
  ∧ (handle st1 sid now' e2).2 = []
  ∧ rooms (handle st1 sid now' e2).1 = rooms st1
  ∧ connectedUsers (handle st1 sid now' e2).1 = connectedUsers st1
  ∧ (e2 = In.leave_room → handle st1 sid now' e2 = (st1, [])).
Proof.
  intros He1 He2 st1.
  assert (connectedUsers st1 !! sid = None) as Hgone.
  { subst st1. destruct (leaveRoom_tables st sid) as [Hcu _].
    destruct He1 as [-> | ->]; cbn; rewrite Hcu; apply lookup_delete_eq. }
  split; [done|].
  destruct He2 as [-> | ->]; cbn [handle].
  - by rewrite leaveRoom_unbound.
  - rewrite on_disconnect_unbound by done. by repeat split.
Qed.

Lemma leave_is_final_witness :
  handle lobby_after_leave "s2" 4 In.leave_room = (lobby_after_leave, [])
  ∧ (handle lobby_after_leave "s2" 4 In.disconnect).2 = [].
Proof.
  destruct (leave_is_final lobby "s2" 3 4 In.leave_room In.leave_room)
    as (_ & _ & _ & _ & Hagain); [by left..|].
  destruct (leave_is_final lobby "s2" 3 4 In.leave_room In.disconnect)
    as (_ & Hquiet & _); [by left|by right|].
  split; [by apply Hagain|exact Hquiet].
Defined.

(** X14: when a bound connection whose role is not host leaves or
    disconnects, the others get the updated directory and then
    participant-left-session if the room is active, user-left otherwise;
    its seat and binding are removed, the room is kept as it was unless
    that seat was the last one, in which case the room is deleted; no
    other room changes. *)
Theorem participant_leaves st sid now e u room :
  e = In.leave_room ∨ e = In.disconnect →
  connectedUsers st !! sid = Some u →
  socket_role st sid ≠ Some Host →
  rooms st !! UserInfo.roomId u = Some room →
  let roomId := UserInfo.roomId u in
  let remaining := delete sid (Room.participants room) in
  let st' := (handle st sid now e).1 in
  (handle st sid now e).2
  = [to_others roomId sid (Out.lobby_updated remaining);
     if decide (Room.state room = ACTIVE) then
       to_others roomId sid
         (Out.participant_left_session (UserInfo.username u) (UserInfo.role u)
            remaining)
     else
       to_others roomId sid
         (Out.user_left (UserInfo.username u) (UserInfo.role u))]
  ∧ (size remaining ≠ 0 →
     rooms st' !! roomId
     = Some (Room.mk (Room.id room) (Room.host room) (Room.state room) remaining
               (Room.drawings room) (Room.backgroundImage room)
               (Room.slides room) (Room.currentSlide room)
               (Room.slideDrawings room) (Room.settings room)
               (Room.createdAt room)))
  ∧ (size remaining = 0 → rooms st' !! roomId = None)
  ∧ (∀ k, k ≠ roomId → rooms st' !! k = rooms st !! k)
  ∧ connectedUsers st' = delete sid (connectedUsers st).
Proof.
  intros He Hu Hrole Hroom roomId remaining st'.
  assert ((handle st sid now e).2 = (leaveRoom st sid).2
          ∧ rooms st' = rooms (leaveRoom st sid).1
          ∧ connectedUsers st' = connectedUsers (leaveRoom st sid).1)
    as (-> & Hrooms & Hcu).
  { subst st'. by destruct He as [-> | ->]. }
  rewrite Hrooms, Hcu. clear Hrooms Hcu st'.
  unfold leaveRoom. rewrite Hu, Hroom. unfold leave_bound_room.
  destruct (decide (socket_role st sid = Some Host)); [done|].
  fold roomId remaining. cbn [fst snd rooms connectedUsers].
  split; [done|].
  destruct (decide (size remaining = 0)) as [Hempty|Hsome].
  - split; [done|]. split; [intros _; apply lookup_delete_eq|].
    split; [|done]. intros k Hne.
    by rewrite lookup_delete_ne, lookup_insert_ne.
  - split; [intros _; apply lookup_insert_eq|]. split; [done|].
    split; [|done]. intros k Hne. by rewrite lookup_insert_ne.
Qed.

Lemma participant_leaves_witness :
  (handle lobby "s2" 3 In.leave_room).2
  = [to_others "R1" "s2"
       (Out.lobby_updated {[ "s1" := Participant.mk "s1" "Alice" Host true 1 ]});
     to_others "R1" "s2" (Out.user_left "Bob" Participant)].
Proof.
  destruct (participant_leaves lobby "s2" 3 In.leave_room
              (UserInfo.mk "R1" "Bob" Participant) (room_of lobby "R1"))
    as [Hnotices _]; [by left|evaluate| |evaluate|].
  { vm_compute. discriminate. }
  rewrite Hnotices. evaluate.
Defined.

Lemma leaveRoom_participant st sid u room :
  connectedUsers st !! sid = Some u →
  socket_role st sid ≠ Some Host →
  rooms st !! UserInfo.roomId u = Some room →
  size (delete sid (Room.participants room)) ≠ 0 →
  rooms (leaveRoom st sid).1
  = <[UserInfo.roomId u :=
        Room.with_participants (delete sid (Room.participants room)) room]>
      (rooms st)
  ∧ connectedUsers (leaveRoom st sid).1 = delete sid (connectedUsers st).
Proof.
  intros Hu Hrole Hroom Hsize. unfold leaveRoom. rewrite Hu, Hroom.
  unfold leave_bound_room. rewrite decide_False by done.
  by rewrite decide_False.
Qed.

(** X15: join-room, toggle-ready, leave-room in a row by a connection
    that was neither seated nor bound: the toggle sets the readiness of
    its seat, and after the leave the registry and the bindings are
    exactly what they were before the join. *)
Theorem join_ready_leave_round_trip st sid now1 now2 now3 roomId username ready room :
  reachable st →
  rooms st !! roomId = Some room →
  size (Room.participants room) < Settings.maxParticipants (Room.settings room) →
  Room.participants room !! sid = None →
  connectedUsers st !! sid = None →
  let st1 := (handle st sid now1 (In.join_room roomId username)).1 in
  let st2 := (handle st1 sid now2 (In.toggle_ready ready)).1 in
  let st3 := (handle st2 sid now3 In.leave_room).1 in
  (Participant.ready <$> (room_of st2 roomId).(Room.participants) !! sid) = Some ready
  ∧ rooms st3 = rooms st
  ∧ connectedUsers st3 = connectedUsers st.
Proof.
  intros Hreach Hroom Hcap Hseat Hfree st1 st2 st3.
  pose proof (inv_keys _ (reachable_by_directory_inv _ _ Hreach) _ _ Hroom)
    as Htruthy.
  destruct (reachable_by_sound _ _ Hreach _ _ Hroom) as [_ _ _ _ _ Hsize _ _].
  set (p := Participant.mk sid username Participant false now1).
  set (room1 := Room.with_participants (<[sid := p]> (Room.participants room)) room).
  assert (st1 = Server (<[roomId := room1]> (rooms st))
                  (<[sid := UserInfo.mk roomId username Participant]>
                     (connectedUsers st))
                  (<[sid := Socket.mk roomId username Participant]> (sockets st)))
    as Hst1.
  { subst st1. cbn [handle].
    by rewrite (on_join_room_seated _ _ _ _ _ _ Hroom Hcap). }
  set (room2 := Room.with_participants
                  (<[sid := Participant.with_ready ready p]>
                     (Room.participants room1)) room1).
  clearbody st1. subst st1.
  assert (st2 = set_room roomId room2
                  (Server (<[roomId := room1]> (rooms st))
                     (<[sid := UserInfo.mk roomId username Participant]>
                        (connectedUsers st))
                     (<[sid := Socket.mk roomId username Participant]>
                        (sockets st)))) as Hst2.
  { subst st2. cbn [handle]. unfold on_toggle_ready.
    cbn [sockets rooms]. rewrite lookup_insert_eq. cbn [Socket.roomId Socket.role].
    rewrite Htruthy. rewrite bool_decide_eq_true_2 by done. cbn [negb orb].
    rewrite lookup_insert_eq.
    unfold room1 at 1. cbn [Room.participants Room.with_participants].
    by rewrite lookup_insert_eq. }
  clearbody st2. subst st2.
  split.
  { unfold room_of. cbn [rooms set_room].
    rewrite lookup_insert_eq. cbn. by rewrite lookup_insert_eq. }
  assert (rooms st3 = rooms st ∧ connectedUsers st3 = connectedUsers st); [|done].
  subst st3. cbn [handle].
  assert (delete sid (Room.participants room2) = Room.participants room) as Hback.
  { unfold room2, room1. cbn.
    rewrite delete_insert_eq, delete_insert_eq. by apply delete_id. }
  destruct (leaveRoom_participant
              (set_room roomId room2
                 (Server (<[roomId := room1]> (rooms st))
                    (<[sid := UserInfo.mk roomId username Participant]>
                       (connectedUsers st))
                    (<[sid := Socket.mk roomId username Participant]>
                       (sockets st))))
              sid (UserInfo.mk roomId username Participant) room2)
    as [-> ->].
  - simpl. apply lookup_insert_eq.
  - unfold socket_role. simpl. rewrite lookup_insert_eq. discriminate.
  - simpl. apply lookup_insert_eq.
  - rewrite Hback. lia.
  - rewrite Hback. simpl. split.
    + rewrite !insert_insert_eq.
      replace (Room.with_participants (Room.participants room) room2) with room
        by (unfold room2, room1; by destruct room).
      by apply insert_id.
    + by apply delete_insert_id.
Qed.

Lemma join_ready_leave_round_trip_witness :
  rooms (run lobby [from_socket "s3" 3 (In.join_room "R1" "Carol");
                    from_socket "s3" 4 (In.toggle_ready true);
                    from_socket "s3" 5 In.leave_room])
  = rooms lobby.
Proof.
  refine (proj1 (proj2 (join_ready_leave_round_trip lobby "s3" 3 4 5 "R1" "Carol"
                          true (room_of lobby "R1") (reachable_run _) _ _ _ _))).
  - evaluate.
  - vm_compute. lia.
  - evaluate.
  - evaluate.
Defined.

(** ** Kicking *)

(** X16: kick-participant is dropped unless the sender's role is host
    and the target is a connected socket carrying the sender's room id.
    When it goes through for a target bound to that room, the target is
    sent kicked, is disconnected, and is gone from the socket table, the
    bindings and the room's directory in the same step. *)
Theorem kick_participant_gate st sid now targetUserId :
  (socket_role st sid ≠ Some Host →
     handle st sid now (In.kick_participant targetUserId) = (st, []))
  ∧ (∀ socket, sockets st !! sid = Some socket →
       (∀ targetSocket, sockets st !! targetUserId = Some targetSocket →
          Socket.roomId targetSocket ≠ Socket.roomId socket) →
       handle st sid now (In.kick_participant targetUserId) = (st, []))
  ∧ (∀ socket targetSocket u,
       sockets st !! sid = Some socket →
       truthy (Socket.roomId socket) = true →
       Socket.role socket = Host →
       sockets st !! targetUserId = Some targetSocket →
       Socket.roomId targetSocket = Socket.roomId socket →
       connectedUsers st !! targetUserId = Some u →
       UserInfo.roomId u = Socket.roomId socket →
       let res := handle st sid now (In.kick_participant targetUserId) in
       (∃ notices,
          res.2 = to_socket targetUserId
                    (Out.kicked (Socket.username socket) "Removed by host")
                  :: drop_connection targetUserId :: notices)
       ∧ sockets res.1 !! targetUserId = None
       ∧ connectedUsers res.1 !! targetUserId = None
       ∧ ∀ room', rooms res.1 !! Socket.roomId socket = Some room' →
                  Room.participants room' !! targetUserId = None).
Proof.
  cbn [handle]. unfold on_kick_participant. split; [|split].
  - intros Hrole. unfold socket_role in Hrole.
    destruct (sockets st !! sid) as [socket|]; [|done]. cbn in Hrole.
    rewrite bool_decide_eq_false_2 by congruence. by rewrite orb_true_r.
  - intros socket Hsocket Hother. rewrite Hsocket.
    destruct (_ || _); [done|].
    destruct (sockets st !! targetUserId) as [targetSocket|]; [|done].
    rewrite decide_False; [done|]. by apply Hother.
  - intros socket targetSocket u Hsocket Htruthy Hrole Htarget Hsame Hu Hbound.
    rewrite Hsocket, Htruthy, Hrole, Htarget. cbn [negb orb bool_decide].
    rewrite bool_decide_eq_true_2 by done. cbn [negb].
    rewrite decide_True by done. cbn [fst snd].
    split; [by eexists|]. unfold on_disconnect. cbn [fst sockets connectedUsers rooms].
    destruct (leaveRoom_tables st targetUserId) as [Hcu Hs].
    split; [apply lookup_delete_eq|]. split; [rewrite Hcu; apply lookup_delete_eq|].
    intros room' Hroom'.
    apply leaveRoom_rooms in Hroom'
      as [[_ Hother]|(u' & room & _ & _ & _ & -> & _)].
    + by destruct (Hother u Hu).
    + cbn. apply lookup_delete_eq.
Qed.

Lemma kick_participant_gate_witness :
  handle lobby "s2" 3 (In.kick_participant "s1") = (lobby, [])
  ∧ sockets (handle lobby "s1" 3 (In.kick_participant "s2")).1 !! "s2" = None
  ∧ Room.participants
      (room_of (handle lobby "s1" 3 (In.kick_participant "s2")).1 "R1") !! "s2"
    = None.
Proof.
  destruct (kick_participant_gate lobby "s2" 3 "s1") as (Hdrop & _ & _).
  destruct (kick_participant_gate lobby "s1" 3 "s2") as (_ & _ & Hkick).
  split; [apply Hdrop; vm_compute; discriminate|].
  destruct (Hkick alice bob (UserInfo.mk "R1" "Bob" Participant))
    as (_ & Hsocket & _ & Hseat); [evaluate..|].
  split; [exact Hsocket|]. apply Hseat. evaluate.
Defined.

(** ** Senders and rooms *)

(** X17: in every reachable state an event other than create-room and
    join-room from a socket that was never bound is dropped: the state is
    unchanged and nothing is emitted. *)
Theorem unbound_sender_ignored st sid now e :
  reachable st → sockets st !! sid = None →
  (∀ roomId username, e ≠ In.create_room roomId username) →
  (∀ roomId username, e ≠ In.join_room roomId username) →
  handle st sid now e = (st, []).
Proof.
  intros Hreach Hnone Hcreate Hjoin.
  assert (connectedUsers st !! sid = None) as Hunbound.
  { destruct (connectedUsers st !! sid) as [u|] eqn:Hu; [|done].
    destruct (inv_bindings _ (reachable_by_directory_inv _ _ Hreach) _ _ Hu)
      as (socket & Hs & _). congruence. }
  destruct e; cbn [handle];
    try (by edestruct Hcreate); try (by edestruct Hjoin);
    try (unfold on_toggle_ready, on_start_session, on_drawing, on_chat_message,
           on_file_upload_started, on_background_image_set,
           on_background_cleared, on_file_shared, on_presentation_shared,
           on_slide_changed, on_slide_drawings_cleared, on_text_added,
           on_clear_canvas, on_toggle_participant_drawing,
           on_toggle_participant_chat, on_kick_participant;
         by rewrite Hnone).
  - by apply leaveRoom_unbound.
  - rewrite on_disconnect_unbound by done.
    rewrite delete_id by done. by destruct st.
Qed.

Lemma unbound_sender_ignored_witness :
  handle session "s9" 6 (In.drawing stroke_c) = (session, []).
Proof.
  apply unbound_sender_ignored;
    [apply reachable_run|evaluate|discriminate|discriminate].
Defined.

(** X18: the session events (start, drawing, chat, upload notice,
    background, file, presentation, slide, text, clear, permission
    toggles) touch no room but the one the sender's socket names, and
    never the connection tables. *)
Theorem other_rooms_untouched st sid now e socket :
  sockets st !! sid = Some socket →
  artifact_input (from_socket sid now e) = true →
  let st' := (handle st sid now e).1 in
  (∀ k, k ≠ Socket.roomId socket → rooms st' !! k = rooms st !! k)
  ∧ connectedUsers st' = connectedUsers st
  ∧ sockets st' = sockets st.
Proof.
  intros Hsocket Hclass st'. subst st'.
  destruct e; try discriminate; cbn [handle];
    unfold on_start_session, on_drawing, on_chat_message,
      on_file_upload_started, on_background_image_set,
      on_background_cleared, on_file_shared, on_presentation_shared,
      on_slide_changed, on_slide_drawings_cleared, on_text_added,
      on_clear_canvas, on_toggle_participant_drawing,
      on_toggle_participant_chat;
    rewrite Hsocket; repeat case_match; cbn [fst]; try done;
    (split; [|done]); intros k Hne; cbn; by rewrite lookup_insert_ne.
Qed.

Lemma other_rooms_untouched_witness :
  rooms (handle two_rooms "s2" 6 (In.background_cleared "Bob")).1 !! "R2"
  = rooms two_rooms !! "R2".
Proof.
  destruct (other_rooms_untouched two_rooms "s2" 6 (In.background_cleared "Bob")
              bob)
    as [Hothers _]; [evaluate|reflexivity|].
  apply Hothers. discriminate.
Defined.

(** ** Refusals *)

(** X19: error, room-exists, room-not-found and room-full are only ever
    sent to the socket whose request is turned down, never to a room, and
    whenever one is sent the server state is unchanged. *)
Theorem refusals_reach_sender_only st sid now e eff m :
  eff ∈ (handle st sid now e).2 → carries eff m → refusal m →
  eff = to_socket sid m ∧ (handle st sid now e).1 = st.
Proof.
  destruct e; cbn [handle];
    unfold on_create_room, on_join_room, on_toggle_ready, on_start_session,
      on_drawing, on_chat_message, on_file_upload_started,
      on_background_image_set, on_background_cleared, on_file_shared,
      on_presentation_shared, on_slide_changed, on_slide_drawings_cleared,
      on_text_added, on_clear_canvas, on_toggle_participant_drawing,
      on_toggle_participant_chat, on_kick_participant, on_disconnect,
      leaveRoom, leave_bound_room;
    repeat case_match; cbn [fst snd];
    intros Hin Hcarries Hrefusal; split_effects Hin;
    cbn in Hcarries; subst; cbn in Hrefusal; done.
Qed.

Lemma refusals_reach_sender_only_witness :
  to_socket "late" Out.room_full = to_socket "late" Out.room_full
  ∧ (handle full_house "late" 3 (In.join_room "R1" "Zed")).1 = full_house.
Proof.
  apply (refusals_reach_sender_only full_house "late" 3 (In.join_room "R1" "Zed")
           (to_socket "late" Out.room_full) Out.room_full).
  - vm_compute. apply list_elem_of_here.
  - reflexivity.
  - exact I.
Defined.

(** ** The read-only HTTP queries *)

Lemma find_host_creator room values creator :
  lists_directory values room →
  (∀ sid p, Room.participants room !! sid = Some p →
            Participant.role p = Host → sid = creator) →
  find_host values
  = match Room.participants room !! creator with
    | Some p => if decide (Participant.role p = Host)
                then Some (Participant.username p) else None
    | None => None
    end.
Proof.
  intros Hvalues Honly. unfold find_host.
  set (l := filter _ _).
  assert (∀ p, p ∈ l ↔ Room.participants room !! creator = Some p
                       ∧ Participant.role p = Host) as Hl.
  { intros p. unfold l. rewrite list_elem_of_filter, Hvalues, list_elem_of_fmap.
    split.
    - intros [Hrole ([sid p'] & -> & Hin)]. cbn in *.
      apply elem_of_map_to_list in Hin.
      by rewrite <- (Honly _ _ Hin Hrole).
    - intros [Hp Hrole]. split; [done|]. exists (creator, p).
      split; [done|]. by apply elem_of_map_to_list. }
  destruct (head l) as [p|] eqn:Hhead.
  - apply head_Some_elem_of, Hl in Hhead as [-> Hrole].
    by rewrite decide_True.
  - apply head_None in Hhead.
    destruct (Room.participants room !! creator) as [p|] eqn:Hp; [|done].
    destruct (decide (Participant.role p = Host)) as [Hrole|]; [|done].
    assert (p ∈ l) as Hin by (by apply Hl). rewrite Hhead in Hin.
    by apply not_elem_of_nil in Hin.
Qed.

(** X20: what the two HTTP queries report of a reachable state.  The
    summary of a live room shows between 1 and maxParticipants
    participants, never the ended state, and as host the display name of
    the creator's entry when that entry has role host (whatever the order
    in which the directory is walked), which is always the case when
    connections bind only once.  The detail query answers 404 exactly for
    ids that are not registered, and otherwise echoes the id with a count
    that is the size of the listed directory. *)
Theorem api_reports_live_rooms st :
  reachable st →
  (∀ k room values, rooms st !! k = Some room → lists_directory values room →
     let s := room_summary k room values in
     1 ≤ RoomSummary.participantCount s
     ∧ RoomSummary.participantCount s ≤ RoomSummary.maxParticipants s
     ∧ RoomSummary.state s ≠ ENDED
     ∧ RoomSummary.host s
       = match Room.participants room !! Room.host room with
         | Some p => if decide (Participant.role p = Host)
                     then Some (Participant.username p) else None
         | None => None
         end
     ∧ (reachable_by binds_once st → is_Some (RoomSummary.host s)))
  ∧ (∀ id, api_room st id = status_404 "Room not found" ↔ rooms st !! id = None)
  ∧ (∀ id body, api_room st id = json body →
       RoomDetail.id body = id
       ∧ RoomDetail.participantCount body = size (RoomDetail.participants body)
       ∧ 1 ≤ RoomDetail.participantCount body ≤ 50).
Proof.
  intros Hreach.
  pose proof (reachable_by_directory_inv _ _ Hreach) as Hinv.
  split; [|split].
  - intros k room values Hroom Hvalues s. subst s. cbn.
    destruct (reachable_by_sound _ _ Hreach _ _ Hroom) as [_ ? _ _ Hmax ? _ _].
    rewrite Hmax. split; [lia|]. split; [lia|]. split; [done|].
    assert (find_host values
            = match Room.participants room !! Room.host room with
              | Some p => if decide (Participant.role p = Host)
                          then Some (Participant.username p) else None
              | None => None
              end) as ->.
    { apply find_host_creator; [done|].
      intros sid p. by apply (inv_creator _ Hinv k). }
    split; [done|]. intros Honce.
    destruct (reachable_by_hosted _ Honce _ _ Hroom) as [(p & -> & Hrole) _].
    rewrite decide_True by done. eauto.
  - intros id. unfold api_room. by destruct (rooms st !! id).
  - intros id body. unfold api_room.
    destruct (rooms st !! id) as [room|] eqn:Hroom; [|done].
    intros [= <-]. cbn.
    by destruct (reachable_by_sound _ _ Hreach _ _ Hroom) as [_ _ _ _ _ ? _ _].
Qed.

Lemma api_reports_live_rooms_witness :
  room_summary "R1" (room_of lobby "R1")
    [Participant.mk "s1" "Alice" Host true 1;
     Participant.mk "s2" "Bob" Participant false 2]
  = RoomSummary.mk "R1" LOBBY 2 50 1 (Some "Alice")
  ∧ RoomSummary.participantCount
      (room_summary "R1" (room_of lobby "R1")
         [Participant.mk "s1" "Alice" Host true 1;
          Participant.mk "s2" "Bob" Participant false 2]) ≤ 50
  ∧ api_room lobby "R7" = status_404 "Room not found".
Proof.
  destruct (api_reports_live_rooms lobby (reachable_run _))
    as (Hsummary & Hmissing & _).
  split; [evaluate|]. split.
  - destruct (Hsummary "R1" (room_of lobby "R1")
                [Participant.mk "s1" "Alice" Host true 1;
                 Participant.mk "s2" "Bob" Participant false 2])
      as (_ & Hle & _); [evaluate| |].
    + unfold lists_directory. vm_compute. reflexivity.
    + exact Hle.
  - apply Hmissing. evaluate.
Defined.

(** ** Strokes and slide clears *)

(** X21: an accepted draw stroke on a slide followed by
    slide-drawings-cleared for that slide, by any connection of the room:
    the slide's log is gone, the logs of the other slides are what they
    were, and the stroke is still in the flat log. *)
Theorem slide_clear_keeps_flat_log st sid now data socket room sid' now' socket'
    index :
  bound_to st sid socket room → may_draw room sid →
  Stroke.type data = "draw" → Stroke.slideIndex data = Some index →
  sockets st !! sid' = Some socket' →
  Socket.roomId socket' = Socket.roomId socket →
  let roomId := Socket.roomId socket in
  let record := attributed socket sid now data in
  let st1 := (handle st sid now (In.drawing data)).1 in
  let st2 := (handle st1 sid' now' (In.slide_drawings_cleared (Some index))).1 in
  ∃ room1 room2,
    rooms st1 !! roomId = Some room1
    ∧ rooms st2 !! roomId = Some room2
    ∧ slide_log room1 (slideKey (Some index))
      = slide_log room (slideKey (Some index)) ++ [record]
    ∧ slide_log room2 (slideKey (Some index)) = []
    ∧ (∀ other, other ≠ Some index →
         slide_log room2 (slideKey other) = slide_log room (slideKey other))
    ∧ Room.drawings room2 = Room.drawings room ++ [record].
Proof.
  intros Hbound Hmay Hdraw Hindex Hsocket' Hsame roomId record st1 st2.
  destruct (drawing_allowed st sid now data socket room Hbound Hmay)
    as (room1 & Hres & _ & _ & Hpush & _).
  destruct (Hpush Hdraw) as [Hflat Hlogs].
  assert (st1 = set_room roomId room1 st) as Hst1 by (subst st1; by rewrite Hres).
  assert (bound_to st1 sid' socket' room1) as Hbound'.
  { destruct Hbound as (_ & Htruthy & _). rewrite Hst1.
    split; [done|]. rewrite Hsame. split; [done|]. apply lookup_insert_eq. }
  exists room1. eexists. split; [rewrite Hst1; apply lookup_insert_eq|].
  subst st2. rewrite (slide_drawings_cleared_outcome _ _ _ _ _ Hbound').
  cbn [fst]. rewrite Hsame. fold roomId. rewrite lookup_put_artifacts.
  split; [done|]. split.
  { rewrite Hlogs, Hindex. by rewrite decide_True. }
  unfold slide_log at 1 2. cbn [Room.slideDrawings].
  split; [by rewrite lookup_delete_eq|]. split; [|done].
  intros other Hne. rewrite lookup_delete_ne.
  - fold (slide_log room1 (slideKey other)). rewrite Hlogs.
    rewrite decide_False; [done|].
    intros [_ Hkey]. rewrite Hindex in Hkey. by apply slideKey_inj in Hkey.
  - intros Hkey. by apply slideKey_inj in Hkey.
Qed.

Lemma slide_clear_keeps_flat_log_witness :
  ∃ room2,
    rooms (run session
             [from_socket "s2" 6 (In.drawing stroke_c);
              from_socket "s1" 7 (In.slide_drawings_cleared (Some 1%Z))])
      !! "R1" = Some room2
    ∧ slide_log room2 (slideKey (Some 1%Z)) = []
    ∧ Room.drawings room2
      = Room.drawings (room_of session "R1") ++ [attributed bob "s2" 6 stroke_c].
Proof.
  destruct (slide_clear_keeps_flat_log session "s2" 6 stroke_c bob
              (room_of session "R1") "s1" 7 alice 1%Z)
    as (room1 & room2 & _ & Hroom2 & _ & Hcleared & _ & Hflat).
  - bound_by_evaluation.
  - split; [evaluate|]. eexists. split; [evaluate|]. right. evaluate.
  - reflexivity.
  - reflexivity.
  - evaluate.
  - reflexivity.
  - exists room2. split; [exact Hroom2|]. split; [exact Hcleared|exact Hflat].
Defined.
